(** * depaware: dependency accumulation, attribution and stable rendering

    A shallow embedding of [depaware/depaware.go].  Go strings and byte
    slices are byte sequences; they are modelled by [string], whose
    characters are the 256 values of [ascii].  Go maps are [gmap]s; a
    read of a missing key yields the zero value of the value type, which
    is written out with [default].  A nil map reads like the empty map
    and the source never writes to a nil map (both [AddEdge] and [AddDep]
    allocate first), so nil is the empty [gmap]. *)

From Stdlib Require Import NArith Ascii.
From Stdlib Require String.
From stdpp Require Import gmap strings list sorting.

(** ** Bytes and strings *)

Module Bytes.

(** Numeric value of a byte. *)
Definition val (c : ascii) : N := N_of_ascii c.

(** Go compares strings with [<] bytewise. *)
Definition lt (s1 s2 : string) : bool := String.ltb s1 s2.

(** [strings.HasPrefix]. *)
Fixpoint HasPrefix (s prefix : string) {struct prefix} : bool :=
  match prefix with
  | EmptyString => true
  | String c prefix' =>
      match s with
      | EmptyString => false
      | String d s' => if Ascii.eqb c d then HasPrefix s' prefix' else false
      end
  end.

(** [strings.Contains]: [substr] occurs somewhere in [s]. *)
Fixpoint Contains (s substr : string) : bool :=
  HasPrefix s substr ||
  match s with
  | EmptyString => false
  | String _ s' => Contains s' substr
  end.

(** The slice [s[n:]]. *)
Fixpoint drop (n : nat) (s : string) : string :=
  match n, s with
  | S n', String _ s' => drop n' s'
  | _, _ => s
  end.

Definition inRange (lo hi : N) (c : ascii) : bool :=
  ((lo <=? val c) && (val c <=? hi))%N.

(** Membership of a byte in an ASCII cutset. *)
Fixpoint inCutset (cutset : string) (c : ascii) : bool :=
  match cutset with
  | EmptyString => false
  | String k cutset' => Ascii.eqb k c || inCutset cutset' c
  end.

(** [bytes.TrimRight] for a cutset of ASCII bytes: every trailing byte
    that belongs to the cutset is removed. *)
Fixpoint TrimRight (s cutset : string) : string :=
  match s with
  | EmptyString => EmptyString
  | String c s' =>
      match TrimRight s' cutset with
      | EmptyString => if inCutset cutset c then EmptyString else String c EmptyString
      | t => String c t
      end
  end.

End Bytes.

(** ** UTF-8 ([unicode/utf8]) and [unicode] as far as the program uses them *)

Module Utf8.
Import Bytes.

Definition byte (n : N) : ascii := ascii_of_N n.

Definition isCont (c : ascii) : bool := inRange 0x80 0xBF c.

(** Number of bytes [utf8.DecodeRune] consumes at the head of [s]:
    the length of a well-formed encoding, and 1 for a byte that does
    not start one.  0 only for the empty string. *)
Definition runeWidth (s : string) : nat :=
  match s with
  | EmptyString => 0
  | String b0 t =>
      if (val b0 <? 0x80)%N then 1
      else if inRange 0xC2 0xDF b0 then
        match t with
        | String b1 _ => if isCont b1 then 2 else 1
        | _ => 1
        end
      else if inRange 0xE0 0xEF b0 then
        match t with
        | String b1 (String b2 _) =>
            let lo := if (val b0 =? 0xE0)%N then 0xA0%N else 0x80%N in
            let hi := if (val b0 =? 0xED)%N then 0x9F%N else 0xBF%N in
            if inRange lo hi b1 && isCont b2 then 3 else 1
        | _ => 1
        end
      else if inRange 0xF0 0xF4 b0 then
        match t with
        | String b1 (String b2 (String b3 _)) =>
            let lo := if (val b0 =? 0xF0)%N then 0x90%N else 0x80%N in
            let hi := if (val b0 =? 0xF4)%N then 0x8F%N else 0xBF%N in
            if inRange lo hi b1 && isCont b2 && isCont b3 then 4 else 1
        | _ => 1
        end
      else 1
  end.

(** [utf8.RuneCount]; [skip] bytes of the current rune remain. *)
Fixpoint runeCountFrom (skip : nat) (s : string) : nat :=
  match s with
  | EmptyString => 0
  | String _ t =>
      match skip with
      | S k => runeCountFrom k t
      | O => S (runeCountFrom (pred (runeWidth s)) t)
      end
  end.

Definition RuneCount (s : string) : nat := runeCountFrom 0 s.

(** [utf8.AppendRune], the encoding [bytes.Buffer.WriteRune] appends. *)
Definition encodeRune (r : N) : string :=
  if (r <? 0x80)%N then String (byte r) EmptyString
  else if (r <? 0x800)%N then
    String (byte (N.lor 0xC0 (N.shiftr r 6)))
      (String (byte (N.lor 0x80 (N.land r 0x3F))) EmptyString)
  else if ((0x10FFFF <? r) || ((0xD800 <=? r) && (r <=? 0xDFFF)))%N then
    String (byte 0xEF) (String (byte 0xBF) (String (byte 0xBD) EmptyString))
  else if (r <? 0x10000)%N then
    String (byte (N.lor 0xE0 (N.shiftr r 12)))
      (String (byte (N.lor 0x80 (N.land (N.shiftr r 6) 0x3F)))
         (String (byte (N.lor 0x80 (N.land r 0x3F))) EmptyString))
  else
    String (byte (N.lor 0xF0 (N.shiftr r 18)))
      (String (byte (N.lor 0x80 (N.land (N.shiftr r 12) 0x3F)))
         (String (byte (N.lor 0x80 (N.land (N.shiftr r 6) 0x3F)))
            (String (byte (N.lor 0x80 (N.land r 0x3F))) EmptyString))).

(** [unicode.ToUpper] on the runes [rune(b)] of a byte [b], that is on
    code points below 256 (ASCII fast path, then the Latin-1 entries of
    the case table). *)
Definition ToUpper (r : N) : N :=
  if ((0x61 <=? r) && (r <=? 0x7A))%N then (r - 0x20)%N
  else if (r =? 0xB5)%N then 0x39C%N
  else if (((0xE0 <=? r) && (r <=? 0xF6)) || ((0xF8 <=? r) && (r <=? 0xFE)))%N
       then (r - 0x20)%N
  else if (r =? 0xFF)%N then 0x178%N
  else r.

(** Length of the encoding of a [unicode.IsSpace] rune at the head of
    [s], and 0 when there is none: the ASCII white space bytes, U+0085,
    U+00A0, U+1680, U+2000 to U+200A, U+2028, U+2029, U+202F, U+205F
    and U+3000. *)
Definition spaceWidth (s : string) : nat :=
  match s with
  | EmptyString => 0
  | String b0 t =>
      if inRange 0x09 0x0D b0 || (val b0 =? 0x20)%N then 1
      else if (val b0 =? 0xC2)%N then
        match t with
        | String b1 _ => if ((val b1 =? 0x85) || (val b1 =? 0xA0))%N then 2 else 0
        | _ => 0
        end
      else
        match t with
        | String b1 (String b2 _) =>
            let v0 := val b0 in let v1 := val b1 in let v2 := val b2 in
            if ((v0 =? 0xE1) && (v1 =? 0x9A) && (v2 =? 0x80))%N
               || ((v0 =? 0xE2) && (v1 =? 0x80)
                    && (inRange 0x80 0x8A b2 || (v2 =? 0xA8) || (v2 =? 0xA9)
                        || (v2 =? 0xAF)))%N
               || ((v0 =? 0xE2) && (v1 =? 0x81) && (v2 =? 0x9F))%N
               || ((v0 =? 0xE3) && (v1 =? 0x80) && (v2 =? 0x80))%N
            then 3 else 0
        | _ => 0
        end
  end.

End Utf8.

(** ** Text helpers of the standard library: [fmt], [bufio], [bytes] *)

Module Text.
Import Bytes.

Fixpoint spaces (n : nat) : string :=
  match n with
  | O => EmptyString
  | S n' => String " "%char (spaces n')
  end.

(** The verb [%Ns]: pad on the left to [width] runes. *)
Definition padLeft (width : nat) (s : string) : string :=
  spaces (width - Utf8.RuneCount s) +:+ s.

(** The verb [%-Ns]: pad on the right to [width] runes. *)
Definition padRight (width : nat) (s : string) : string :=
  s +:+ spaces (width - Utf8.RuneCount s).

Definition newline : ascii := Utf8.byte 10.
Definition nl : string := String newline EmptyString.

(** The pieces of the input between line feeds; a final piece that is
    empty is no line. *)
Fixpoint rawLines (s : string) : list string :=
  match s with
  | EmptyString => []
  | String c s' =>
      if Ascii.eqb c newline then EmptyString :: rawLines s'
      else match rawLines s' with
           | [] => [String c EmptyString]
           | l :: ls => String c l :: ls
           end
  end.

(** [bufio.ScanLines] drops one trailing carriage return. *)
Fixpoint dropCR (s : string) : string :=
  match s with
  | EmptyString => EmptyString
  | String c EmptyString =>
      if Ascii.eqb c (Utf8.byte 13) then EmptyString else s
  | String c s' => String c (dropCR s')
  end.

(** [bufio.MaxScanTokenSize]. *)
Definition MaxScanTokenSize : N := 65536.

Fixpoint takeWhile {A} (f : A → bool) (l : list A) : list A :=
  match l with
  | [] => []
  | x :: l' => if f x then x :: takeWhile f l' else []
  end.

(** The tokens a [bufio.Scanner] with the default split function and
    buffer yields: the lines in order, up to the first one that does
    not fit the buffer, where [Scan] reports false (the scanner's
    error is never looked at by the program). *)
Definition scanLines (r : string) : list string :=
  dropCR <$>
    takeWhile (λ l, (N.of_nat (String.length l) <? MaxScanTokenSize)%N)
      (rawLines r).

(** Marks every byte of [s] that belongs to white space with [None]. *)
Fixpoint markSpace (skip : nat) (s : string) : list (option ascii) :=
  match s with
  | EmptyString => []
  | String c t =>
      match skip with
      | S k => None :: markSpace k t
      | O =>
          match Utf8.spaceWidth s with
          | O => Some c :: markSpace 0 t
          | S k => None :: markSpace k t
          end
      end
  end.

(** Maximal runs of unmarked bytes. *)
Fixpoint runs (l : list (option ascii)) : list string :=
  match l with
  | [] => []
  | None :: l' => runs l'
  | Some c :: l' =>
      match l' with
      | Some _ :: _ =>
          match runs l' with
          | w :: ws => String c w :: ws
          | [] => [String c EmptyString]
          end
      | _ => String c EmptyString :: runs l'
      end
  end.

(** [bytes.Fields]: the maximal runs of bytes between white space. *)
Definition Fields (s : string) : list string := runs (markSpace 0 s).

End Text.

(** ** Sorting

    [sort.Slice] and [sort.Strings] are not stable and their algorithm is
    not part of their contract: the result is some permutation of the
    input in which no element is [less] than an earlier one.  Both
    comparators used by the program are strict total orders, for which
    that permutation is unique (lemma [Sorting.sorted_unique] below), so
    the insertion sort used here returns what any implementation
    returns. *)

Module Sorting.
Section By.
Context {A : Type} (less : A → A → bool).

(** [a] may stand before [b]. *)
Definition notAfter (a b : A) : Prop := less b a = false.

Fixpoint insertBy (x : A) (l : list A) : list A :=
  match l with
  | [] => [x]
  | y :: l' => if less x y then x :: y :: l' else y :: insertBy x l'
  end.

Fixpoint sortBy (l : list A) : list A :=
  match l with
  | [] => []
  | x :: l' => insertBy x (sortBy l')
  end.

(** What the sort contract promises of its result. *)
Definition sortedBy (l : list A) : Prop := StronglySorted notAfter l.

(** The comparator is a strict total order. *)
Record StrictTotal : Prop := {
  st_irrefl : ∀ a, less a a = false;
  st_trans : ∀ a b c, less a b = true → less b c = true → less a c = true;
  st_total : ∀ a b, less a b = false → less b a = false → a = b
}.
End By.
End Sorting.

(** [sort.Strings]. *)
Definition sortStrings (l : list string) : list string :=
  Sorting.sortBy Bytes.lt l.

(** ** External collaborators *)

Module GoImports.
Import Bytes.

(** The text after the last occurrence of [sep] in [s], if any. *)
Fixpoint afterLast (s sep : string) : option string :=
  match s with
  | EmptyString => None
  | String _ s' =>
      match afterLast s' sep with
      | Some r => Some r
      | None =>
          if HasPrefix s sep then Some (drop (String.length sep) s) else None
      end
  end.

(** [golang.org/x/tools/imports.VendorlessPath]: the import path
    without its vendor directory prefix. *)
Definition VendorlessPath (ipath : string) : string :=
  match afterLast ipath "/vendor/" with
  | Some r => r
  | None =>
      if HasPrefix ipath "vendor/" then drop (String.length "vendor/") ipath
      else ipath
  end.

End GoImports.

(** What [packages.Load] and [packages.Visit] hand to the callback of
    process: a package with its path, its Go files and the keys of its
    import map. *)
Record Package := {
  PkgPath : string;
  GoFiles : list string;
  Imports : list string
}.

(** ** The accumulator *)

Record deps := {
  Deps : list string;
  DepOnOS : gmap (string * string) bool;
  DepTo : gmap string (list string);
  UsesUnsafe : gmap string bool;
  UsesCGO : gmap string bool
}.

(** The zero value [var d deps]. *)
Definition zeroDeps : deps :=
  {| Deps := []; DepOnOS := ∅; DepTo := ∅; UsesUnsafe := ∅; UsesCGO := ∅ |}.

(** Map reads, with the zero value for a missing key. *)
Definition importersOf (d : deps) (pkg : string) : list string :=
  default [] (DepTo d !! pkg).

Definition flagOf (m : gmap string bool) (pkg : string) : bool :=
  default false (m !! pkg).

Definition onOS (d : deps) (pkg goos : string) : bool :=
  default false (DepOnOS d !! (pkg, goos)).

Fixpoint stringsContains (ss : list string) (s : string) : bool :=
  match ss with
  | [] => false
  | v :: ss' => if String.eqb v s then true else stringsContains ss' s
  end.

Definition isGoPackage (pkg : string) : bool :=
  negb (Bytes.Contains pkg ".") || Bytes.Contains pkg "golang.org/x".

Definition isInternalPackage (pkg : string) : bool :=
  Bytes.HasPrefix pkg "internal/" ||
  Bytes.HasPrefix pkg "runtime/internal/" ||
  String.eqb pkg "runtime" || String.eqb pkg "runtime/cgo" ||
  String.eqb pkg "unsafe" ||
  (Bytes.Contains pkg "/internal/" && isGoPackage pkg).

Section Accumulator.
(** The path normalisation of the import tooling and the [-internal]
    flag. *)
Variable VendorlessPath : string → string.
Variable internal : bool.

Definition AddEdge (d : deps) (from to : string) : deps :=
  let from := VendorlessPath from in
  let to := VendorlessPath to in
  let depTo :=
    if negb (stringsContains (importersOf d to) from)
    then <[to := importersOf d to ++ [from]]> (DepTo d)
    else DepTo d in
  let usesUnsafe :=
    if String.eqb to "unsafe" then <[from := true]> (UsesUnsafe d)
    else UsesUnsafe d in
  let usesCGO :=
    if String.eqb to "runtime/cgo" then <[from := true]> (UsesCGO d)
    else UsesCGO d in
  {| Deps := Deps d; DepOnOS := DepOnOS d; DepTo := depTo;
     UsesUnsafe := usesUnsafe; UsesCGO := usesCGO |}.

Definition AddDep (d : deps) (pkg goos : string) : deps :=
  let pkg := VendorlessPath pkg in
  if negb internal && isInternalPackage pkg then d
  else
    let deps' :=
      if negb (stringsContains (Deps d) pkg) then Deps d ++ [pkg]
      else Deps d in
    {| Deps := deps'; DepOnOS := <[(pkg, goos) := true]> (DepOnOS d);
       DepTo := DepTo d; UsesUnsafe := UsesUnsafe d; UsesCGO := UsesCGO d |}.

(** The calls the accumulator receives. *)
Inductive call :=
| CallAddEdge (from to : string)
| CallAddDep (pkg goos : string).

Definition perform (d : deps) (c : call) : deps :=
  match c with
  | CallAddEdge from to => AddEdge d from to
  | CallAddDep pkg goos => AddDep d pkg goos
  end.

Definition performAll (d : deps) (cs : list call) : deps :=
  foldl perform d cs.

(** The callback process hands to [packages.Visit] (lines 87-98), as
    the calls it makes for the package [p] while loading for [goos]:
    an edge for every import, then the dependency itself unless [p] is
    the root.  The imports are the keys of a map; the order in which
    they are listed here is the order of its iteration. *)
Definition visitCalls (pkg goos : string) (p : Package) : list call :=
  (CallAddEdge (PkgPath p) <$> Imports p) ++
  (if String.eqb (PkgPath p) pkg then [] else [CallAddDep (PkgPath p) goos]).

(** The loop over the target systems (lines 73-99).  [loads] pairs
    every element of [geese] with the packages of its load, in the
    order [packages.Visit] reaches them. *)
Definition loadCalls (pkg : string) (loads : list (string * list Package))
  : list call :=
  loads ≫= λ '(goos, visited), visited ≫= visitCalls pkg goos.

Definition accumulate (pkg : string) (loads : list (string * list Package))
  : deps :=
  performAll zeroDeps (loadCalls pkg loads).

End Accumulator.

(** ** Attribution: deps.Why (lines 195-221) *)

(** The first loop of Why: the preferred importer if it is among
    [from], the empty string otherwise. *)
Definition preferredIn (from : list string) (pref : string) : string :=
  if negb (String.eqb pref "") then
    (if stringsContains from pref then pref else "")
  else "".

(** Why returns the attribution text.  [from] shares its backing array
    with the slice stored in the map, so [sort.Strings(from)] reorders
    the stored importers in place; the second component is the
    accumulator after the call. *)
Definition Why (d : deps) (pkg : string) (preferredWhy : gmap string string)
  : string * deps :=
  let from := importersOf d pkg in
  if length from =? 0 then ("", d)
  else
    let pref := default "" (preferredWhy !! pkg) in
    let why := preferredIn from pref in
    let '(why, from, d) :=
      if String.eqb why "" then
        let sorted := sortStrings from in
        (hd "" sorted, sorted,
         {| Deps := Deps d; DepOnOS := DepOnOS d;
            DepTo := <[pkg := sorted]> (DepTo d);
            UsesUnsafe := UsesUnsafe d; UsesCGO := UsesCGO d |})
      else (why, from, d) in
    let plus := if 1 <? length from then "+" else "" in
    ("from " +:+ why +:+ plus, d).

(** ** Hints from the previous snapshot: parsePreferredWhy (lines 302-324) *)

(** The value of [i] after [for i = range words { ... break }]: the
    index of the first word equal to "from", and the last index (0 for
    no words at all) when there is none. *)
Fixpoint scanFrom (i : nat) (words : list string) : nat :=
  match words with
  | [] => i
  | w :: rest =>
      if String.eqb w "from" then i
      else match rest with
           | [] => i
           | _ => scanFrom (S i) rest
           end
  end.

(** One iteration of the scan loop.  The two index expressions
    [words[i-1]] and [words[i+1]] panic when out of range, which is
    [None] here. *)
Definition parseLine (m : gmap string string) (line : string)
  : option (gmap string string) :=
  let words := Text.Fields line in
  let i := Z.of_nat (scanFrom 0 words) in
  if ((i <? 1) || (i >=? Z.of_nat (length words) - 1))%Z then Some m
  else
    dep ← words !! Z.to_nat (i - 1);
    src ← words !! Z.to_nat (i + 1);
    Some (<[dep := Bytes.TrimRight src "+"]> m).

Fixpoint parseLines (m : gmap string string) (lines : list string)
  : option (gmap string string) :=
  match lines with
  | [] => Some m
  | line :: rest => m' ← parseLine m line; parseLines m' rest
  end.

Definition parsePreferredWhy (r : string) : option (gmap string string) :=
  parseLines ∅ (Text.scanLines r).

(** ** Rendering: process (lines 105-148) *)

(** The comparator handed to [sort.Slice]. *)
Definition lessDeps (d1 d2 : string) : bool :=
  let p1 := Bytes.Contains d1 "." in
  let p2 := Bytes.Contains d2 "." in
  if negb (Bool.eqb p1 p2) then p1
  else
    let x1 := Bytes.Contains d1 "golang.org/x/" in
    let x2 := Bytes.Contains d2 "golang.org/x/" in
    if negb (Bool.eqb x1 x2) then x2
    else Bytes.lt d1 d2.

(** [sort.Slice(d.Deps, ...)]. *)
Definition sortDeps (l : list string) : list string :=
  Sorting.sortBy lessDeps l.



Definition unsafeIcon (d : deps) (pkg : string) : string :=
  if flagOf (UsesUnsafe d) pkg && negb (isGoPackage pkg) then "U" else " ".

Definition cgoIcon (d : deps) (pkg : string) : string :=
  if flagOf (UsesCGO d) pkg && negb (isGoPackage pkg) then "C" else " ".

(** The loop over [geese] that fills [osBuf] (lines 139-143).  Indexing
    an empty name, [goos[0]], panics: no output is produced. *)
Fixpoint writeMarkers (d : deps) (pkg : string) (geese : list string)
  (osBuf : string) : option string :=
  match geese with
  | [] => Some osBuf
  | goos :: rest =>
      if onOS d pkg goos then
        match goos with
        | EmptyString => None
        | String c _ =>
            writeMarkers d pkg rest
              (osBuf +:+ Utf8.encodeRune (Utf8.ToUpper (Bytes.val c)))
        end
      else writeMarkers d pkg rest osBuf
  end.

(** The content of [osBuf] when the line is formatted (lines 138-146). *)
Definition osMarkers (d : deps) (geese : list string) (pkg : string)
  : option string :=
  osBuf ← writeMarkers d pkg geese "";
  Some (if String.length osBuf =? length geese then "" else osBuf).

(** The format [" %3s %s%s %-60s %s\n"]. *)
Definition formatLine (os unsafeIcon cgoIcon pkg why : string) : string :=
  " " +:+ Text.padLeft 3 os +:+ " " +:+ unsafeIcon +:+ cgoIcon +:+ " " +:+
  Text.padRight 60 pkg +:+ " " +:+ why +:+ Text.nl.

(** One iteration of the loop over [d.Deps] (lines 129-148). *)
Definition renderLine (geese : list string) (preferredWhy : gmap string string)
  (d : deps) (pkg : string) : option (string * deps) :=
  os ← osMarkers d geese pkg;
  let '(why, d') := Why d pkg preferredWhy in
  Some (formatLine os (unsafeIcon d pkg) (cgoIcon d pkg) pkg why, d').

Fixpoint renderLoop (geese : list string) (preferredWhy : gmap string string)
  (d : deps) (pkgs : list string) : option (list string * deps) :=
  match pkgs with
  | [] => Some ([], d)
  | pkg :: rest =>
      '(line, d1) ← renderLine geese preferredWhy d pkg;
      '(lines, d2) ← renderLoop geese preferredWhy d1 rest;
      Some (line :: lines, d2)
  end.

(** [d.Deps] is sorted in place, then one line is written per element. *)
Definition renderLines (geese : list string) (preferredWhy : gmap string string)
  (d : deps) : option (list string * deps) :=
  let d := {| Deps := sortDeps (Deps d); DepOnOS := DepOnOS d;
              DepTo := DepTo d; UsesUnsafe := UsesUnsafe d;
              UsesCGO := UsesCGO d |} in
  renderLoop geese preferredWhy d (Deps d).

Definition header (pkg : string) : string :=
  pkg +:+ " dependencies: (generated by github.com/tailscale/depaware)" +:+
  Text.nl +:+ Text.nl.

Fixpoint joinAll (ls : list string) : string :=
  match ls with
  | [] => ""
  | l :: ls' => l +:+ joinAll ls'
  end.

(** The bytes of [buf] once the loop is done, and the accumulator as
    rendering leaves it.  [None] stands for a run that panics. *)
Definition render (pkg : string) (geese : list string)
  (preferredWhy : gmap string string) (d : deps) : option (string * deps) :=
  '(lines, d') ← renderLines geese preferredWhy d;
  Some (header pkg +:+ joinAll lines, d').

(** How a run of process ends before the mode flags are looked at:
    with [buf] complete, in [log.Fatalf], or in a panic. *)
Inductive outcome :=
| Rendered (buf : string)
| Fatal
| Panic.

(** [dir] is set by the first visit of the root that has Go files
    (lines 91-94); [filepath.Dir] never returns the empty string. *)
Definition foundDir (pkg : string) (loads : list (string * list Package))
  : bool :=
  existsb (λ '(_, visited),
             existsb (λ p, String.eqb (PkgPath p) pkg &&
                           (0 <? length (GoFiles p))) visited) loads.

(** process up to the point where [buf] is complete (lines 65-148).
    [loads] is what the loader returned for every element of [geese],
    all loads having succeeded; [daContents] is the previous snapshot
    when it could be read. *)
Definition process (VendorlessPath : string → string) (internal : bool)
  (pkg : string) (loads : list (string * list Package))
  (daContents : option string) : outcome :=
  let d := accumulate VendorlessPath internal pkg loads in
  if negb (foundDir pkg loads) then Fatal
  else
    match
      match daContents with
      | Some c => parsePreferredWhy c
      | None => Some ∅
      end
    with
    | None => Panic
    | Some preferredWhy =>
        match render pkg (fst <$> loads) preferredWhy d with
        | Some (buf, _) => Rendered buf
        | None => Panic
        end
    end.

(** ** The modes of process and Main (lines 40-63 and 150-178) *)

(** What a run of process does once [buf] is complete (lines 150-178):
    the check finds the snapshot up to date and returns; the check
    prints a diff of the two texts and exits with status 1; the update
    hands the text to [ioutil.WriteFile]; the text goes to standard
    output; [log.Fatal]; a panic. *)
Inductive effect :=
| Unchanged
| OutOfDate (before after : string)
| Written (contents : string)
| Printed (buf : string)
| Aborted
| Panicked.

Definition finish (check update : bool) (daContents : option string)
  (buf : string) : effect :=
  if check then
    match daContents with
    | None => Aborted
    | Some before =>
        if String.eqb before buf then Unchanged else OutOfDate before buf
    end
  else if update then Written buf
  else Printed buf.

(** process as a whole. *)
Definition processRun (check update : bool)
  (VendorlessPath : string → string) (internal : bool) (pkg : string)
  (loads : list (string * list Package)) (daContents : option string)
  : effect :=
  match process VendorlessPath internal pkg loads daContents with
  | Rendered buf => finish check update daContents buf
  | Fatal => Aborted
  | Panic => Panicked
  end.

(** What Main does, package by package. *)
Inductive event :=
| Processed (pkg : string) (e : effect)
| BlankLine.

(** The effects after which the program has exited. *)
Definition stops (e : effect) : bool :=
  match e with
  | OutOfDate _ _ | Aborted | Panicked => true
  | _ => false
  end.

(** The second loop of Main (lines 55-62); [printing] is
    [!*check && !*update]. *)
Fixpoint processAll (printing : bool) (run : string → effect)
  (ipaths : list string) : list event :=
  match ipaths with
  | [] => []
  | pkg :: rest =>
      let e := run pkg in
      Processed pkg e ::
      if stops e then []
      else
        (if match rest with [] => false | _ => true end && printing
         then [BlankLine] else []) ++
        processAll printing run rest
  end.

(** Main (lines 40-63).  [resolved] is the answer of pkgPaths, [None]
    for an error; [run] is process for a package.  [None] stands for a
    [log.Fatalf] before any package is processed. *)
Definition Main (check update : bool) (resolved : option (list string))
  (run : string → effect) : option (list event) :=
  if check && update then None
  else
    match resolved with
    | None => None
    | Some ipaths =>
        if existsb (λ pkg, Bytes.HasPrefix pkg "-") ipaths then None
        else Some (processAll (negb check && negb update) run ipaths)
    end.

(** ** Vocabulary of the statements *)

(** The attribution text as a function of the importers and the hint. *)
Definition whyText (from : list string) (pref : string) : string :=
  if length from =? 0 then ""
  else
    let why := preferredIn from pref in
    let why := if String.eqb why "" then hd "" (sortStrings from) else why in
    "from " +:+ why +:+ (if 1 <? length from then "+" else "").

(** The line of a dependency as a function of the accumulator. *)
Definition lineOf (geese : list string) (preferredWhy : gmap string string)
  (d : deps) (pkg : string) : option string :=
  os ← osMarkers d geese pkg;
  Some (formatLine os (unsafeIcon d pkg) (cgoIcon d pkg) pkg
          (whyText (importersOf d pkg) (default "" (preferredWhy !! pkg)))).

(** Two accumulators that hold the same facts: the same dependencies
    and the same importers of every package, in any order, and the same
    answers of the flag and target maps. *)
Record sameState (d1 d2 : deps) : Prop := {
  same_Deps : Deps d1 ≡ₚ Deps d2;
  same_DepOnOS : ∀ pkg goos, onOS d1 pkg goos = onOS d2 pkg goos;
  same_DepTo : ∀ pkg, importersOf d1 pkg ≡ₚ importersOf d2 pkg;
  same_UsesUnsafe : ∀ pkg, flagOf (UsesUnsafe d1) pkg = flagOf (UsesUnsafe d2) pkg;
  same_UsesCGO : ∀ pkg, flagOf (UsesCGO d1) pkg = flagOf (UsesCGO d2) pkg
}.

(** Line [i] of the body of the snapshot is the line of [pkg]. *)
Definition lineIs (geese : list string) (preferredWhy : gmap string string)
  (d : deps) (lines : list string) (i : nat) (pkg : string) : Prop :=
  sortDeps (Deps d) !! i = Some pkg ∧
  ∃ l, lines !! i = Some l ∧ lineOf geese preferredWhy d pkg = Some l.

(** [a] has a line, [b] has a line, and every line of [a] comes before
    every line of [b]. *)
Definition earlierLine (geese : list string) (preferredWhy : gmap string string)
  (d : deps) (lines : list string) (a b : string) : Prop :=
  (∃ i, lineIs geese preferredWhy d lines i a) ∧
  (∃ j, lineIs geese preferredWhy d lines j b) ∧
  ∀ i j, lineIs geese preferredWhy d lines i a →
         lineIs geese preferredWhy d lines j b → i < j.

(** The number of stored records of the edge from [from] to [to]. *)
Definition records (d : deps) (from to : string) : nat :=
  length (filter (λ f, f = from) (importersOf d to)).

(** The edge from [from] to [to] is among the calls, after
    normalisation. *)
Definition observedEdge (VendorlessPath : string → string)
  (cs : list call) (from to : string) : Prop :=
  ∃ f t, CallAddEdge f t ∈ cs ∧ VendorlessPath f = from ∧ VendorlessPath t = to.

(** The dependency [pkg] is among the calls and is not left out as
    internal. *)
Definition observedDep (VendorlessPath : string → string) (internal : bool)
  (cs : list call) (pkg : string) : Prop :=
  ∃ p goos, CallAddDep p goos ∈ cs ∧ VendorlessPath p = pkg ∧
            (negb internal && isInternalPackage pkg) = false.

(** The candidate set has more than one element. *)
Definition moreThanOne (from : list string) : Prop :=
  ∃ f1 f2, f1 ∈ from ∧ f2 ∈ from ∧ f1 ≠ f2.

(** A target name whose first byte is ASCII, as all names of the Go
    tool chain are. *)
Definition asciiName (goos : string) : Prop :=
  ∃ c rest, goos = String c rest ∧ (Bytes.val c < 128)%N.

(** The marker of a target: its first byte in upper case. *)
Definition upperInitial (goos : string) : string :=
  match goos with
  | EmptyString => ""
  | String c _ => String (Utf8.byte (Utf8.ToUpper (Bytes.val c))) ""
  end.

(** A line of the previous snapshot with a token before and a token
    after a token "from". *)
Definition hasFromBetween (line : string) : Prop :=
  ∃ before dep src after,
    Text.Fields line = before ++ [dep; "from"; src] ++ after.

(** The accumulator with every slice in sorted order. *)
Definition canonical (d : deps) : deps :=
  {| Deps := sortDeps (Deps d); DepOnOS := DepOnOS d;
     DepTo := sortStrings <$> DepTo d;
     UsesUnsafe := UsesUnsafe d; UsesCGO := UsesCGO d |}.

(** In some load, a package with the path [importer] imports [dep]
    (paths after normalisation). *)
Definition importedBy (VendorlessPath : string → string)
  (loads : list (string * list Package)) (importer dep : string) : Prop :=
  ∃ goos visited p imp,
    (goos, visited) ∈ loads ∧ p ∈ visited ∧ imp ∈ Imports p ∧
    VendorlessPath (PkgPath p) = importer ∧ VendorlessPath imp = dep.

(** [dep] is imported by the root and by no other package. *)
Definition onlyDirect (VendorlessPath : string → string)
  (loads : list (string * list Package)) (root dep : string) : Prop :=
  importedBy VendorlessPath loads (VendorlessPath root) dep ∧
  ∀ importer, importedBy VendorlessPath loads importer dep →
              importer = VendorlessPath root.

(** The dependency [pkg] is among the calls made for the target [goos]
    and is not left out as internal. *)
Definition observedOn (VendorlessPath : string → string) (internal : bool)
  (cs : list call) (pkg goos : string) : Prop :=
  ∃ p, CallAddDep p goos ∈ cs ∧ VendorlessPath p = pkg ∧
       (negb internal && isInternalPackage pkg) = false.

(** The packages of the events, in order. *)
Definition processed (events : list event) : list string :=
  omap (λ ev, match ev with Processed pkg _ => Some pkg | BlankLine => None end)
    events.

(** *** Names and lines of a snapshot that reads back *)

(** A printable ASCII byte other than the space. *)
Definition plainByte (c : ascii) : bool := Bytes.inRange 0x21 0x7E c.

(** A printable ASCII byte, the space included. *)
Definition textByte (c : ascii) : bool := Bytes.inRange 0x20 0x7E c.

Fixpoint allBytes (f : ascii → bool) (s : string) : bool :=
  match s with
  | EmptyString => true
  | String c s' => f c && allBytes f s'
  end.

(** A name that a line of the snapshot carries as one token. *)
Definition plainName (s : string) : bool :=
  negb (String.eqb s "") && allBytes plainByte s.

(** The white space bytes of ASCII. *)
Definition spaceByte (c : ascii) : bool :=
  Bytes.inRange 0x09 0x0D c || (Bytes.val c =? 0x20)%N.

(** The marks of [Text.markSpace] on a text of ASCII bytes. *)
Fixpoint marks (s : string) : list (option ascii) :=
  match s with
  | EmptyString => []
  | String c s' => (if spaceByte c then None else Some c) :: marks s'
  end.

(** A line of the snapshot without its line feed. *)
Definition lineBody (os unsafeIcon cgoIcon pkg why : string) : string :=
  " " +:+ Text.padLeft 3 os +:+ " " +:+ unsafeIcon +:+ cgoIcon +:+ " " +:+
  Text.padRight 60 pkg +:+ " " +:+ why.

(** The importer Why names when there are importers. *)
Definition chosenWhy (from : list string) (pref : string) : string :=
  let why := preferredIn from pref in
  if String.eqb why "" then hd "" (sortStrings from) else why.

(** A plain byte that is no lower case letter. *)
Definition upperByte (c : ascii) : bool :=
  plainByte c && negb (Bytes.inRange 0x61 0x7A c).

(** A target name that begins with a plain byte. *)
Definition startsPlain (goos : string) : bool :=
  match goos with
  | EmptyString => false
  | String c _ => plainByte c
  end.

(** Names short enough for every line to fit the buffer of the
    scanner. *)
Definition shortName (s : string) : bool :=
  (N.of_nat (String.length s) <? 20000)%N.

Definition goodName (s : string) : bool := plainName s && shortName s.

(** An importer: a good name that does not end in '+'. *)
Definition goodImporter (w : string) : bool :=
  goodName w && String.eqb (Bytes.TrimRight w "+") w.

(** A dependency: a good name other than the keyword, with good
    importers. *)
Definition goodDep (d : deps) (dep : string) : bool :=
  goodName dep && negb (String.eqb dep "from") &&
  forallb goodImporter (importersOf d dep).

(** The names of a run are such that the snapshot can be read back:
    printable ASCII without spaces, of moderate length. *)
Definition wellNamed (pkg : string) (geese : list string) (d : deps) : bool :=
  goodName pkg && (N.of_nat (length geese) <? 20000)%N &&
  forallb startsPlain geese && forallb (goodDep d) (Deps d).

(** What the line of [dep] adds to the hints read back. *)
Definition recordHint (preferredWhy : gmap string string) (d : deps)
  (m : gmap string string) (dep : string) : gmap string string :=
  if length (importersOf d dep) =? 0 then m
  else <[dep := chosenWhy (importersOf d dep)
                  (default "" (preferredWhy !! dep))]> m.

(** A line that passes the scanner unchanged. *)
Definition scannable (body : string) : Prop :=
  allBytes textByte body = true ∧
  (N.of_nat (String.length body) < Text.MaxScanTokenSize)%N.

(** A byte that is neither a line feed nor a carriage return. *)
Definition inlineByte (c : ascii) : bool :=
  negb (Ascii.eqb c Text.newline) && negb (Ascii.eqb c (Utf8.byte 13)).

(** A line the scanner returns as it is: no line break among its
    bytes, and room for it and its line end in the buffer. *)
Definition wholeLine (l : string) : bool :=
  allBytes inlineByte l &&
  (N.of_nat (String.length l) + 1 <? Text.MaxScanTokenSize)%N.

(** The text of the lines, each with the line end [eol]. *)
Definition unlines (eol : string) (lines : list string) : string :=
  joinAll ((λ l, l +:+ eol) <$> lines).

Definition crlf : string := String (Utf8.byte 13) Text.nl.

(** ** Sample runs *)

Module Sample.

Definition pkg (path : string) (imports : list string) : Package :=
  {| PkgPath := path; GoFiles := ["/src/" +:+ path +:+ "/a.go"];
     Imports := imports |}.

(** A root that imports a third-party package and a standard one. *)
Definition mixed : list (string * list Package) :=
  [("linux", [pkg "fmt" [];
              pkg "example.com/x" ["fmt"];
              pkg "root" ["example.com/x"; "fmt"]])].

(** A root that imports an extended-standard package and a
    third-party one. *)
Definition external : list (string * list Package) :=
  [("linux", [pkg "golang.org/x/net" [];
              pkg "zgo.at/zli" [];
              pkg "root" ["golang.org/x/net"; "zgo.at/zli"]])].

(** A root whose one dependency uses cgo. *)
Definition direct : list (string * list Package) :=
  [("linux", [pkg "runtime/cgo" [];
              pkg "foo/bar" ["runtime/cgo"];
              pkg "root" ["foo/bar"]])].

(** A dependency seen under one of two targets and one seen under
    both. *)
Definition twoTargets : list (string * list Package) :=
  [("linux", [pkg "encoding/base64" [];
              pkg "encoding/json" [];
              pkg "encoding/binary" ["encoding/json"; "encoding/base64"];
              pkg "example.com/y" ["encoding/binary"; "unsafe"];
              pkg "root" ["example.com/y"; "encoding/binary";
                          "encoding/base64"; "encoding/json"]]);
   ("darwin", [pkg "encoding/base64" [];
               pkg "example.com/y" ["encoding/base64"; "unsafe"];
               pkg "root" ["example.com/y"; "encoding/base64"]])].

(** The same packages as [twoTargets], reached and listed in another
    order. *)
Definition twoTargetsReordered : list (string * list Package) :=
  [("linux", [pkg "encoding/json" [];
              pkg "encoding/base64" [];
              pkg "root" ["encoding/json"; "encoding/base64";
                          "encoding/binary"; "example.com/y"];
              pkg "example.com/y" ["unsafe"; "encoding/binary"];
              pkg "encoding/binary" ["encoding/base64"; "encoding/json"]]);
   ("darwin", [pkg "root" ["encoding/base64"; "example.com/y"];
               pkg "example.com/y" ["unsafe"; "encoding/base64"];
               pkg "encoding/base64" []])].

(** The target list "linux," of a [-goos] flag with a trailing comma:
    its second name is empty. *)
Definition emptyTarget : list (string * list Package) :=
  [("linux", [pkg "fmt" []; pkg "root" ["fmt"]]);
   ("", [pkg "fmt" []; pkg "root" ["fmt"]])].

(** A target name whose first byte, 0xC3, is not ASCII. *)
Definition latinName : string := String (Utf8.byte 195) "linux".

Definition latinTarget : list (string * list Package) :=
  [(latinName, [pkg "fmt" []; pkg "root" ["fmt"]])].

(** A root with a vendored copy of example.com/a.  The copy imports
    example.com/b, which imports the copy of example.com/a outside the
    vendor directory: no import cycle, yet after normalisation an edge
    in each direction. *)
Definition vendored : list (string * list Package) :=
  [("linux", [pkg "example.com/a" [];
              pkg "example.com/b" ["example.com/a"];
              pkg "root/vendor/example.com/a" ["example.com/b"];
              pkg "root" ["root/vendor/example.com/a"]])].

(** A previous snapshot that attributes encoding/binary to the root. *)
Definition hints : gmap string string := {["encoding/binary" := "root"]}.

Definition run (loads : list (string * list Package)) : deps :=
  accumulate GoImports.VendorlessPath false "root" loads.

Definition snapshot (loads : list (string * list Package))
  (daContents : option string) : outcome :=
  process GoImports.VendorlessPath false "root" loads daContents.

End Sample.

(** * Properties *)

(** ** Sorting with a strict total order *)

Module SortingFacts.
Import Sorting.
Section By.
Context {A : Type} (less : A → A → bool).
Hypothesis strict : StrictTotal less.

Lemma less_asym a b : less a b = true → less b a = false.
Proof.
  intros Hab. destruct (less b a) eqn:Hba; [|done].
  pose proof (st_trans less strict _ _ _ Hab Hba) as Haa.
  by rewrite (st_irrefl less strict) in Haa.
Qed.

Lemma notAfter_cases a b : notAfter less a b → a = b ∨ less a b = true.
Proof.
  unfold notAfter. intros Hba. destruct (less a b) eqn:Hab; [by right|].
  left. by apply (st_total less strict).
Qed.

#[local] Instance notAfter_trans : Transitive (notAfter less).
Proof.
  intros a b c Hab Hbc.
  destruct (notAfter_cases _ _ Hab) as [->|Hab']; [done|].
  destruct (notAfter_cases _ _ Hbc) as [<-|Hbc']; [done|].
  apply less_asym. by apply (st_trans less strict) with b.
Qed.

#[local] Instance notAfter_antisym : AntiSymm (=) (notAfter less).
Proof. intros a b Hab Hba. by apply (st_total less strict). Qed.

Lemma insertBy_perm x l : insertBy less x l ≡ₚ x :: l.
Proof.
  induction l as [|y l IH]; simpl; [done|].
  destruct (less x y); [done|]. rewrite IH. apply perm_swap.
Qed.

Lemma sortBy_perm l : sortBy less l ≡ₚ l.
Proof.
  induction l as [|x l IH]; simpl; [done|].
  by rewrite insertBy_perm, IH.
Qed.

Lemma insertBy_sorted x l : sortedBy less l → sortedBy less (insertBy less x l).
Proof.
  unfold sortedBy. induction l as [|y l IH]; simpl; intros Hs.
  - by repeat constructor.
  - apply StronglySorted_inv in Hs as [Hl Hy].
    destruct (less x y) eqn:Hxy.
    + constructor; [by constructor|].
      assert (notAfter less x y) as Hna by by apply less_asym.
      constructor; [done|].
      eapply Forall_impl; [exact Hy|]. intros z Hz. by trans y.
    + constructor; [by apply IH|].
      rewrite insertBy_perm. by constructor.
Qed.

Lemma sortBy_sorted l : sortedBy less (sortBy less l).
Proof.
  induction l as [|x l IH]; simpl; [constructor|by apply insertBy_sorted].
Qed.

(** The contract of the sort determines its result. *)
Lemma sorted_unique l1 l2 :
  l1 ≡ₚ l2 → sortedBy less l1 → sortedBy less l2 → l1 = l2.
Proof. intros Hp H1 H2. by apply (StronglySorted_unique (notAfter less)). Qed.

Lemma sortBy_unique l l' : l' ≡ₚ l → sortedBy less l' → sortBy less l = l'.
Proof.
  intros Hp Hs. apply sorted_unique; [|apply sortBy_sorted|done].
  by rewrite sortBy_perm.
Qed.

Lemma sortBy_perm_eq l1 l2 : l1 ≡ₚ l2 → sortBy less l1 = sortBy less l2.
Proof.
  intros Hp. apply sortBy_unique; [|apply sortBy_sorted].
  by rewrite sortBy_perm.
Qed.

Lemma sortBy_idemp l : sortBy less (sortBy less l) = sortBy less l.
Proof. apply sortBy_unique; [done|apply sortBy_sorted]. Qed.

(** In a sorted slice a smaller element stands at a smaller index. *)
Lemma sorted_lookup_lt l i j a b :
  sortedBy less l → l !! i = Some a → l !! j = Some b →
  less a b = true → i < j.
Proof.
  unfold sortedBy. intros Hs. revert i j.
  induction Hs as [|x l Hs IH Hx]; intros i j Hi Hj Hab; [done|].
  destruct i as [|i], j as [|j]; simpl in *.
  - simplify_eq. by rewrite (st_irrefl less strict) in Hab.
  - lia.
  - simplify_eq. rewrite Forall_forall in Hx.
    assert (notAfter less b a) as Hna
      by (apply Hx; eapply list_elem_of_lookup_2; eauto).
    unfold notAfter in Hna. congruence.
  - specialize (IH i j Hi Hj Hab). lia.
Qed.

Lemma sortBy_head_least x l f :
  hd x (sortBy less l) = f → l ≠ [] →
  f ∈ l ∧ ∀ g, g ∈ l → less g f = false.
Proof.
  intros Hhd Hne. pose proof (sortBy_sorted l) as Hs.
  pose proof (sortBy_perm l) as Hp.
  destruct (sortBy less l) as [|y l'] eqn:E.
  - apply Permutation_nil_l in Hp. by subst.
  - simpl in Hhd. subst y. split.
    + rewrite <- Hp. by left.
    + intros g Hg. rewrite <- Hp in Hg.
      apply StronglySorted_inv in Hs as [_ Hf].
      apply elem_of_cons in Hg as [->|Hg].
      * apply (st_irrefl less strict).
      * rewrite Forall_forall in Hf. by apply Hf.
Qed.
End By.
End SortingFacts.
(** ** Order lemmas *)

Module BytesFacts.
Import Bytes.

Lemma ascii_compare_refl c : Ascii.compare c c = Eq.
Proof. unfold Ascii.compare. apply N.compare_refl. Qed.

Lemma ascii_compare_lt_trans a b c :
  Ascii.compare a b = Lt → Ascii.compare b c = Lt → Ascii.compare a c = Lt.
Proof.
  unfold Ascii.compare. rewrite !N.compare_lt_iff. apply N.lt_trans.
Qed.

Lemma compare_refl s : String.compare s s = Eq.
Proof. induction s as [|c s IH]; simpl; [done|]. by rewrite ascii_compare_refl. Qed.

Lemma compare_lt_trans s1 : ∀ s2 s3,
  String.compare s1 s2 = Lt → String.compare s2 s3 = Lt →
  String.compare s1 s3 = Lt.
Proof.
  induction s1 as [|a s1 IH]; intros [|b s2] [|c s3]; simpl; try done.
  destruct (Ascii.compare a b) eqn:Hab; try done;
    destruct (Ascii.compare b c) eqn:Hbc; try done; intros H1 H2.
  - apply Ascii.compare_eq_iff in Hab, Hbc. subst.
    rewrite ascii_compare_refl. eauto.
  - apply Ascii.compare_eq_iff in Hab. subst. by rewrite Hbc.
  - apply Ascii.compare_eq_iff in Hbc. subst. by rewrite Hab.
  - by rewrite (ascii_compare_lt_trans _ _ _ Hab Hbc).
Qed.

Lemma lt_irrefl s : lt s s = false.
Proof. unfold lt, String.ltb. by rewrite compare_refl. Qed.

Lemma lt_trans a b c : lt a b = true → lt b c = true → lt a c = true.
Proof.
  unfold lt, String.ltb.
  destruct (String.compare a b) eqn:Hab; try done.
  destruct (String.compare b c) eqn:Hbc; try done.
  by rewrite (compare_lt_trans _ _ _ Hab Hbc).
Qed.

Lemma lt_total a b : lt a b = false → lt b a = false → a = b.
Proof.
  unfold lt, String.ltb. rewrite (String.compare_antisym b a).
  destruct (String.compare a b) eqn:Hab; simpl; try done.
  intros _ _. by apply String.compare_eq_iff.
Qed.

Lemma lt_strict : Sorting.StrictTotal lt.
Proof. split; [apply lt_irrefl | apply lt_trans | apply lt_total]. Qed.

End BytesFacts.

(** ** The comparator of process and the helpers of the accumulator *)

Lemma lessDeps_strict : Sorting.StrictTotal lessDeps.
Proof.
  split.
  - intros a. unfold lessDeps.
    destruct (Bytes.Contains a "."), (Bytes.Contains a "golang.org/x/");
      simpl; apply BytesFacts.lt_irrefl.
  - intros a b c. unfold lessDeps.
    destruct (Bytes.Contains a "."), (Bytes.Contains b "."),
      (Bytes.Contains c "."); simpl; try done;
      destruct (Bytes.Contains a "golang.org/x/"),
        (Bytes.Contains b "golang.org/x/"),
        (Bytes.Contains c "golang.org/x/"); simpl; try done;
      apply BytesFacts.lt_trans.
  - intros a b. unfold lessDeps.
    destruct (Bytes.Contains a "."), (Bytes.Contains b "."); simpl; try done;
      destruct (Bytes.Contains a "golang.org/x/"),
        (Bytes.Contains b "golang.org/x/"); simpl; try done;
      apply BytesFacts.lt_total.
Qed.

Lemma sortDeps_perm l : sortDeps l ≡ₚ l.
Proof. apply SortingFacts.sortBy_perm. Qed.

Lemma sortDeps_perm_eq l1 l2 : l1 ≡ₚ l2 → sortDeps l1 = sortDeps l2.
Proof. apply SortingFacts.sortBy_perm_eq, lessDeps_strict. Qed.

Lemma sortStrings_perm l : sortStrings l ≡ₚ l.
Proof. apply SortingFacts.sortBy_perm. Qed.

Lemma sortStrings_perm_eq l1 l2 : l1 ≡ₚ l2 → sortStrings l1 = sortStrings l2.
Proof. apply SortingFacts.sortBy_perm_eq, BytesFacts.lt_strict. Qed.

Lemma HasPrefix_app_l s p q :
  Bytes.HasPrefix s (p +:+ q) = true → Bytes.HasPrefix s p = true.
Proof.
  revert s. induction p as [|c p IH]; intros s; simpl; [done|].
  destruct s as [|d s]; [done|]. destruct (Ascii.eqb c d); [apply IH|done].
Qed.

Lemma Contains_app_l s p q :
  Bytes.Contains s (p +:+ q) = true → Bytes.Contains s p = true.
Proof.
  induction s as [|c s IH]; simpl; rewrite !orb_true_iff.
  - intros [H|H]; [|done]. left. by apply (HasPrefix_app_l "" p q).
  - intros [H|H]; [left; by apply (HasPrefix_app_l _ p q)|right; by apply IH].
Qed.

Lemma stringsContains_elem ss s : stringsContains ss s = true ↔ s ∈ ss.
Proof.
  induction ss as [|v ss IH]; simpl.
  - split; [done|]. by intros ?%elem_of_nil.
  - rewrite elem_of_cons. destruct (String.eqb_spec v s) as [->|Hne].
    + split; auto.
    + rewrite IH. split; [auto|]. intros [->|?]; done.
Qed.

Lemma stringsContains_false ss s : stringsContains ss s = false ↔ s ∉ ss.
Proof.
  rewrite <- stringsContains_elem. by destruct (stringsContains ss s).
Qed.

Lemma stringsContains_perm ss1 ss2 s :
  ss1 ≡ₚ ss2 → stringsContains ss1 s = stringsContains ss2 s.
Proof.
  intros Hp. destruct (stringsContains ss2 s) eqn:E.
  - apply stringsContains_elem. rewrite Hp. by apply stringsContains_elem.
  - apply stringsContains_false. rewrite Hp. by apply stringsContains_false.
Qed.

(** ** Attribution *)

Lemma preferredIn_perm from1 from2 pref :
  from1 ≡ₚ from2 → preferredIn from1 pref = preferredIn from2 pref.
Proof.
  intros Hp. unfold preferredIn. by rewrite (stringsContains_perm _ _ _ Hp).
Qed.

Lemma whyText_perm from1 from2 pref :
  from1 ≡ₚ from2 → whyText from1 pref = whyText from2 pref.
Proof.
  intros Hp. unfold whyText.
  by rewrite (Permutation_length Hp), (preferredIn_perm _ _ _ Hp),
    (sortStrings_perm_eq _ _ Hp).
Qed.

Lemma Why_text d pkg preferredWhy :
  (Why d pkg preferredWhy).1 =
  whyText (importersOf d pkg) (default "" (preferredWhy !! pkg)).
Proof.
  unfold Why, whyText.
  destruct (length (importersOf d pkg) =? 0); [done|].
  destruct (String.eqb _ ""); simpl; [|done].
  by rewrite (Permutation_length (sortStrings_perm _)).
Qed.

Lemma importersOf_insert d m pkg l q :
  DepTo d = <[pkg := l]> m →
  importersOf d q = if decide (pkg = q) then l else default [] (m !! q).
Proof.
  intros E. unfold importersOf. rewrite E, lookup_insert.
  by destruct (decide (pkg = q)).
Qed.

(** ** Accumulators that hold the same facts *)

Lemma sameState_refl d : sameState d d.
Proof. by split. Qed.

Lemma sameState_sym d1 d2 : sameState d1 d2 → sameState d2 d1.
Proof. intros [? ? ? ? ?]. by split. Qed.

Lemma sameState_trans d1 d2 d3 :
  sameState d1 d2 → sameState d2 d3 → sameState d1 d3.
Proof.
  intros [H1 H2 H3 H4 H5] [G1 G2 G3 G4 G5]. split; intros.
  - by rewrite H1.
  - by rewrite H2.
  - by rewrite H3.
  - by rewrite H4.
  - by rewrite H5.
Qed.

Lemma Why_sameState d pkg preferredWhy :
  sameState d (Why d pkg preferredWhy).2.
Proof.
  unfold Why. destruct (length (importersOf d pkg) =? 0) eqn:Hlen;
    [apply sameState_refl|].
  destruct (String.eqb _ ""); simpl; [|apply sameState_refl].
  split; simpl; try done.
  intros q. unfold importersOf at 2. simpl. rewrite lookup_insert.
  destruct (decide (pkg = q)) as [->|Hne]; simpl; [|done].
  by rewrite sortStrings_perm.
Qed.

Lemma writeMarkers_same d1 d2 pkg geese osBuf :
  sameState d1 d2 →
  writeMarkers d1 pkg geese osBuf = writeMarkers d2 pkg geese osBuf.
Proof.
  intros Hs. revert osBuf. induction geese as [|goos rest IH]; intros osBuf;
    simpl; [done|].
  rewrite (same_DepOnOS _ _ Hs). destruct (onOS d2 pkg goos); [|apply IH].
  destruct goos; [done|apply IH].
Qed.

Lemma lineOf_same geese preferredWhy d1 d2 pkg :
  sameState d1 d2 →
  lineOf geese preferredWhy d1 pkg = lineOf geese preferredWhy d2 pkg.
Proof.
  intros Hs. unfold lineOf, osMarkers, unsafeIcon, cgoIcon.
  rewrite (writeMarkers_same _ _ _ _ _ Hs), (same_UsesUnsafe _ _ Hs),
    (same_UsesCGO _ _ Hs), (whyText_perm _ _ _ (same_DepTo _ _ Hs pkg)).
  done.
Qed.

(** ** The rendering loop *)

Lemma renderLine_line geese preferredWhy d pkg :
  fst <$> renderLine geese preferredWhy d pkg = lineOf geese preferredWhy d pkg.
Proof.
  unfold renderLine, lineOf. destruct (osMarkers d geese pkg) as [os|]; [|done].
  simpl. pose proof (Why_text d pkg preferredWhy) as Ht.
  destruct (Why d pkg preferredWhy) as [why d']. simpl in *. by rewrite Ht.
Qed.

Lemma renderLine_sameState geese preferredWhy d pkg line d' :
  renderLine geese preferredWhy d pkg = Some (line, d') → sameState d d'.
Proof.
  unfold renderLine. destruct (osMarkers d geese pkg) as [os|]; [|done].
  simpl. pose proof (Why_sameState d pkg preferredWhy) as Hs.
  destruct (Why d pkg preferredWhy) as [why d1]. intros [= <- <-]. done.
Qed.

Lemma renderLoop_lines geese preferredWhy pkgs : ∀ d,
  fst <$> renderLoop geese preferredWhy d pkgs =
  mapM (lineOf geese preferredWhy d) pkgs.
Proof.
  induction pkgs as [|pkg rest IH]; intros d; [done|].
  cbn [renderLoop mapM]. rewrite <- renderLine_line.
  destruct (renderLine geese preferredWhy d pkg) as [[line d1]|] eqn:E; [|done].
  apply renderLine_sameState in E. simpl.
  rewrite (mapM_ext _ (lineOf geese preferredWhy d1));
    [|intros; by apply lineOf_same].
  rewrite <- IH.
  by destruct (renderLoop geese preferredWhy d1 rest) as [[ls d2]|].
Qed.

Lemma renderLoop_sameState geese preferredWhy pkgs : ∀ d lines d',
  renderLoop geese preferredWhy d pkgs = Some (lines, d') → sameState d d'.
Proof.
  induction pkgs as [|pkg rest IH]; intros d lines d'; simpl.
  - intros [= <- <-]. apply sameState_refl.
  - destruct (renderLine geese preferredWhy d pkg) as [[line d1]|] eqn:E;
      [|done]. simpl.
    destruct (renderLoop geese preferredWhy d1 rest) as [[ls d2]|] eqn:E2;
      [|done]. simpl. intros [= <- <-].
    eapply sameState_trans; [by eapply renderLine_sameState|by eapply IH].
Qed.

Lemma renderLines_lines geese preferredWhy d :
  fst <$> renderLines geese preferredWhy d =
  mapM (lineOf geese preferredWhy d) (sortDeps (Deps d)).
Proof.
  unfold renderLines. rewrite renderLoop_lines. simpl.
  apply mapM_ext. intros pkg. apply lineOf_same.
  split; simpl; try done. apply sortDeps_perm.
Qed.

Lemma renderLines_sameState geese preferredWhy d lines d' :
  renderLines geese preferredWhy d = Some (lines, d') → sameState d d'.
Proof.
  unfold renderLines. intros H%renderLoop_sameState.
  eapply sameState_trans; [|exact H].
  split; simpl; try done. by rewrite sortDeps_perm.
Qed.

Lemma renderLines_same geese preferredWhy d1 d2 :
  sameState d1 d2 →
  fst <$> renderLines geese preferredWhy d1 =
  fst <$> renderLines geese preferredWhy d2.
Proof.
  intros Hs. rewrite !renderLines_lines.
  rewrite (sortDeps_perm_eq _ _ (same_Deps _ _ Hs)).
  apply mapM_ext. intros pkg. by apply lineOf_same.
Qed.

(** ** The order of the lines *)

Lemma renderLines_lineIs geese preferredWhy d lines d' pkg :
  renderLines geese preferredWhy d = Some (lines, d') →
  pkg ∈ Deps d → ∃ i, lineIs geese preferredWhy d lines i pkg.
Proof.
  intros Hr Hin. pose proof (renderLines_lines geese preferredWhy d) as Hl.
  rewrite Hr in Hl. simpl in Hl. symmetry in Hl. apply mapM_Some in Hl.
  rewrite <- sortDeps_perm in Hin.
  apply list_elem_of_lookup in Hin as [i Hi]. exists i. split; [done|].
  destruct (Forall2_lookup_l _ _ _ _ _ Hl Hi) as (l & Hli & Hline). eauto.
Qed.

Lemma lessDeps_earlierLine geese preferredWhy d lines d' a b :
  renderLines geese preferredWhy d = Some (lines, d') →
  a ∈ Deps d → b ∈ Deps d → lessDeps a b = true →
  earlierLine geese preferredWhy d lines a b.
Proof.
  intros Hr Ha Hb Hless. repeat split.
  - by eapply renderLines_lineIs.
  - by eapply renderLines_lineIs.
  - intros i j [Hi _] [Hj _].
    eapply (SortingFacts.sorted_lookup_lt lessDeps lessDeps_strict); eauto.
    apply SortingFacts.sortBy_sorted, lessDeps_strict.
Qed.

(** C1, as the program has it: in the rendered snapshot every
    dependency whose identity contains a '.' stands on an earlier line
    than every dependency whose identity contains none. *)
Theorem dotted_before_bare geese preferredWhy d lines d' a b :
  renderLines geese preferredWhy d = Some (lines, d') →
  a ∈ Deps d → b ∈ Deps d →
  Bytes.Contains a "." = true → Bytes.Contains b "." = false →
  earlierLine geese preferredWhy d lines a b.
Proof.
  intros Hr Ha Hb Hpa Hpb. eapply lessDeps_earlierLine; eauto.
  unfold lessDeps. by rewrite Hpa, Hpb.
Qed.

Lemma dotted_before_bare_witness :
  earlierLine ["linux"] ∅ (Sample.run Sample.mixed)
    [formatLine "" " " " " "example.com/x" "from root";
     formatLine "" " " " " "fmt" "from example.com/x+"]
    "example.com/x" "fmt".
Proof.
  eapply (dotted_before_bare ["linux"] ∅ (Sample.run Sample.mixed)).
  - vm_compute. reflexivity.
  - apply stringsContains_elem. vm_compute. reflexivity.
  - apply stringsContains_elem. vm_compute. reflexivity.
  - vm_compute. reflexivity.
  - vm_compute. reflexivity.
Defined.

(** C1 as the specification words it fails: the bare identity "fmt" is
    rendered after the dotted identity "example.com/x". *)
Lemma bare_not_before_dotted :
  Sample.snapshot Sample.mixed None =
    Rendered (header "root" +:+
          formatLine "" " " " " "example.com/x" "from root" +:+
          formatLine "" " " " " "fmt" "from example.com/x+") ∧
  ∃ lines d',
    renderLines ["linux"] ∅ (Sample.run Sample.mixed) = Some (lines, d') ∧
    "fmt" ∈ Deps (Sample.run Sample.mixed) ∧
    "example.com/x" ∈ Deps (Sample.run Sample.mixed) ∧
    Bytes.Contains "fmt" "." = false ∧
    Bytes.Contains "example.com/x" "." = true ∧
    ¬ earlierLine ["linux"] ∅ (Sample.run Sample.mixed) lines
        "fmt" "example.com/x".
Proof.
  split; [vm_compute; reflexivity|].
  eexists _, _. split; [vm_compute; reflexivity|].
  split; [apply stringsContains_elem; vm_compute; reflexivity|].
  split; [apply stringsContains_elem; vm_compute; reflexivity|].
  split; [vm_compute; reflexivity|]. split; [vm_compute; reflexivity|].
  intros (_ & _ & Hlt).
  assert (1 < 0) as Habs; [|lia].
  apply Hlt; (split; [vm_compute; reflexivity|]);
    eexists; (split; vm_compute; reflexivity).
Qed.

(** C2, as the program has it: among the dependencies whose identities
    contain a '.', every identity outside the namespace "golang.org/x/"
    stands before every identity inside it; two identities that agree
    on both tests stand in bytewise lexicographic order. *)
Theorem external_before_extended geese preferredWhy d lines d' a b :
  renderLines geese preferredWhy d = Some (lines, d') →
  a ∈ Deps d → b ∈ Deps d →
  (Bytes.Contains a "." = true → Bytes.Contains b "." = true →
   Bytes.Contains a "golang.org/x/" = false →
   Bytes.Contains b "golang.org/x/" = true →
   earlierLine geese preferredWhy d lines a b) ∧
  (Bytes.Contains a "." = Bytes.Contains b "." →
   Bytes.Contains a "golang.org/x/" = Bytes.Contains b "golang.org/x/" →
   Bytes.lt a b = true →
   earlierLine geese preferredWhy d lines a b).
Proof.
  intros Hr Ha Hb. split.
  - intros Hpa Hpb Hxa Hxb. eapply lessDeps_earlierLine; eauto.
    unfold lessDeps. by rewrite Hpa, Hpb, Hxa, Hxb.
  - intros Hp Hx Hlt. eapply lessDeps_earlierLine; eauto.
    unfold lessDeps. rewrite Hp, Hx.
    by destruct (Bytes.Contains b "."), (Bytes.Contains b "golang.org/x/").
Qed.

Lemma external_before_extended_witness :
  earlierLine ["linux"] ∅ (Sample.run Sample.external)
    [formatLine "" " " " " "zgo.at/zli" "from root";
     formatLine "" " " " " "golang.org/x/net" "from root"]
    "zgo.at/zli" "golang.org/x/net".
Proof.
  refine (proj1 (external_before_extended ["linux"] ∅
            (Sample.run Sample.external) _ _
            "zgo.at/zli" "golang.org/x/net" _ _ _) _ _ _ _).
  - vm_compute. reflexivity.
  - apply stringsContains_elem. vm_compute. reflexivity.
  - apply stringsContains_elem. vm_compute. reflexivity.
  - vm_compute. reflexivity.
  - vm_compute. reflexivity.
  - vm_compute. reflexivity.
  - vm_compute. reflexivity.
Defined.

(** C2 as the specification words it fails: the extended-standard
    identity "golang.org/x/net" is rendered after the external identity
    "zgo.at/zli", although it is the smaller string. *)
Lemma extended_not_before_external :
  Sample.snapshot Sample.external None =
    Rendered (header "root" +:+
          formatLine "" " " " " "zgo.at/zli" "from root" +:+
          formatLine "" " " " " "golang.org/x/net" "from root") ∧
  Bytes.lt "golang.org/x/net" "zgo.at/zli" = true ∧
  ∃ lines d',
    renderLines ["linux"] ∅ (Sample.run Sample.external) = Some (lines, d') ∧
    "golang.org/x/net" ∈ Deps (Sample.run Sample.external) ∧
    "zgo.at/zli" ∈ Deps (Sample.run Sample.external) ∧
    Bytes.Contains "golang.org/x/net" "." = true ∧
    Bytes.Contains "zgo.at/zli" "." = true ∧
    Bytes.Contains "golang.org/x/net" "golang.org/x/" = true ∧
    Bytes.Contains "zgo.at/zli" "golang.org/x/" = false ∧
    ¬ earlierLine ["linux"] ∅ (Sample.run Sample.external) lines
        "golang.org/x/net" "zgo.at/zli".
Proof.
  split; [vm_compute; reflexivity|]. split; [vm_compute; reflexivity|].
  eexists _, _. split; [vm_compute; reflexivity|].
  split; [apply stringsContains_elem; vm_compute; reflexivity|].
  split; [apply stringsContains_elem; vm_compute; reflexivity|].
  do 4 (split; [vm_compute; reflexivity|]).
  intros (_ & _ & Hlt).
  assert (1 < 0) as Habs; [|lia].
  apply Hlt; (split; [vm_compute; reflexivity|]);
    eexists; (split; vm_compute; reflexivity).
Qed.

(** ** The choice of the attribution *)

Lemma moreThanOne_length from :
  NoDup from → moreThanOne from ↔ 1 < length from.
Proof.
  intros Hnd. split.
  - intros (f1 & f2 & H1 & H2 & Hne).
    destruct from as [|x [|y rest]]; simpl; [|exfalso|lia].
    + by apply elem_of_nil in H1.
    + apply elem_of_cons in H1 as [->|H1%elem_of_nil]; [|done].
      apply elem_of_cons in H2 as [->|H2%elem_of_nil]; done.
  - destruct from as [|x [|y rest]]; simpl; [lia|lia|]. intros _.
    exists x, y. split; [by left|]. split; [right; by left|].
    apply NoDup_cons in Hnd as [Hx _]. intros ->. apply Hx. by left.
Qed.

(** C3: when the hint of the previous snapshot is not empty and is one
    of the importers, Why chooses it, whatever other importers there
    are; otherwise it chooses the least importer in bytewise order.
    The text ends with the marker "+" exactly when there is more than
    one importer.  Without importers there is no text. *)
Theorem Why_prefers_hint d pkg preferredWhy :
  let from := importersOf d pkg in
  let pref := default "" (preferredWhy !! pkg) in
  NoDup from →
  (from = [] → (Why d pkg preferredWhy).1 = "") ∧
  (from ≠ [] →
   ∃ chosen plus,
     (Why d pkg preferredWhy).1 = "from " +:+ chosen +:+ plus ∧
     (pref ≠ "" → pref ∈ from → chosen = pref) ∧
     (¬ (pref ≠ "" ∧ pref ∈ from) →
      chosen ∈ from ∧ ∀ f, f ∈ from → Bytes.lt f chosen = false) ∧
     (plus = "+" ∨ plus = "") ∧
     (plus = "+" ↔ moreThanOne from)).
Proof.
  intros from pref Hnd. rewrite Why_text. fold from pref. unfold whyText.
  split; [by intros ->|]. intros Hne.
  destruct (length from =? 0) eqn:Hlen.
  { apply Nat.eqb_eq in Hlen. by destruct from. }
  assert ((if 1 <? length from then "+" else "") = "+" ↔ moreThanOne from)
    as Hplus.
  { rewrite (moreThanOne_length _ Hnd).
    destruct (Nat.ltb_spec 1 (length from)); split; (done || lia). }
  eexists _, _. split; [reflexivity|].
  unfold preferredIn. destruct (String.eqb_spec pref "") as [Hp|Hp]; simpl.
  - split; [done|]. split; [|split; [by destruct (1 <? length from); auto|done]].
    intros _.
    by apply (SortingFacts.sortBy_head_least Bytes.lt BytesFacts.lt_strict "").
  - destruct (stringsContains from pref) eqn:Hc.
    + apply stringsContains_elem in Hc.
      destruct (String.eqb_spec pref "") as [|_]; [done|].
      split; [done|]. split; [|split; [by destruct (1 <? length from); auto|done]].
      intros Hn. destruct Hn. done.
    + apply stringsContains_false in Hc. simpl.
      split; [done|]. split; [|split; [by destruct (1 <? length from); auto|done]].
      intros _.
      by apply (SortingFacts.sortBy_head_least Bytes.lt BytesFacts.lt_strict "").
Qed.

Lemma Why_prefers_hint_witness :
  importersOf (Sample.run Sample.twoTargets) "encoding/binary" =
    ["example.com/y"; "root"] ∧
  Bytes.lt "example.com/y" "root" = true ∧
  (Why (Sample.run Sample.twoTargets) "encoding/binary" Sample.hints).1 =
    "from root+" ∧
  ∃ chosen plus,
    (Why (Sample.run Sample.twoTargets) "encoding/binary" Sample.hints).1 =
      "from " +:+ chosen +:+ plus ∧
    chosen = "root" ∧ plus = "+".
Proof.
  split; [vm_compute; reflexivity|]. split; [vm_compute; reflexivity|].
  split; [vm_compute; reflexivity|].
  assert (NoDup (importersOf (Sample.run Sample.twoTargets) "encoding/binary"))
    as Hnd by (apply (bool_decide_unpack _); vm_compute; exact I).
  destruct (Why_prefers_hint (Sample.run Sample.twoTargets) "encoding/binary"
              Sample.hints Hnd) as [_ Hw].
  destruct Hw as (chosen & plus & Heq & Hpref & _ & _ & Hplus).
  { vm_compute. discriminate. }
  exists chosen, plus. split; [exact Heq|]. split.
  - apply Hpref; [vm_compute; discriminate|].
    apply stringsContains_elem. vm_compute. reflexivity.
  - apply Hplus. exists "example.com/y", "root".
    split; [apply stringsContains_elem; vm_compute; reflexivity|].
    split; [apply stringsContains_elem; vm_compute; reflexivity|].
    discriminate.
Defined.

(** ** Determinism of the rendering *)

Lemma canonical_sameState d1 d2 :
  canonical d1 = canonical d2 → sameState d1 d2.
Proof.
  unfold canonical. intros [= HD HO HT HU HC]. split.
  - by rewrite <- (sortDeps_perm (Deps d1)), HD, sortDeps_perm.
  - intros pkg goos. unfold onOS. by rewrite HO.
  - intros pkg. unfold importersOf.
    assert ((sortStrings <$> DepTo d1) !! pkg = (sortStrings <$> DepTo d2) !! pkg)
      as E by by rewrite HT.
    rewrite !lookup_fmap in E.
    destruct (DepTo d1 !! pkg) as [l1|], (DepTo d2 !! pkg) as [l2|];
      simpl in *; try done.
    injection E as E.
    by rewrite <- (sortStrings_perm l1), E, sortStrings_perm.
  - intros pkg. by rewrite HU.
  - intros pkg. by rewrite HC.
Qed.

Lemma render_text pkg geese preferredWhy d :
  fst <$> render pkg geese preferredWhy d =
  (λ lines, header pkg +:+ joinAll lines) <$>
    (fst <$> renderLines geese preferredWhy d).
Proof.
  unfold render. by destruct (renderLines geese preferredWhy d) as [[ls d']|].
Qed.

Lemma render_sameState pkg geese preferredWhy d out d' :
  render pkg geese preferredWhy d = Some (out, d') → sameState d d'.
Proof.
  unfold render.
  destruct (renderLines geese preferredWhy d) as [[ls d1]|] eqn:E; [|done].
  simpl. intros [= <- <-]. by eapply renderLines_sameState.
Qed.

(** C4: two accumulators that hold the same dependencies, importers,
    flags and targets render to the same bytes, whatever the order in
    which their slices were filled; and rendering the accumulator that
    a rendering leaves behind yields the same bytes again. *)
Theorem render_deterministic pkg geese preferredWhy d1 d2 :
  sameState d1 d2 →
  fst <$> render pkg geese preferredWhy d1 =
    fst <$> render pkg geese preferredWhy d2 ∧
  ∀ out d1', render pkg geese preferredWhy d1 = Some (out, d1') →
             fst <$> render pkg geese preferredWhy d1' = Some out.
Proof.
  intros Hs. split.
  - rewrite !render_text. by rewrite (renderLines_same _ _ _ _ Hs).
  - intros out d1' Hr. pose proof (render_sameState _ _ _ _ _ _ Hr) as Hs'.
    rewrite render_text, <- (renderLines_same _ _ _ _ Hs'), <- render_text.
    by rewrite Hr.
Qed.

Lemma render_deterministic_witness :
  Deps (Sample.run Sample.twoTargets) ≠
    Deps (Sample.run Sample.twoTargetsReordered) ∧
  importersOf (Sample.run Sample.twoTargets) "encoding/base64" ≠
    importersOf (Sample.run Sample.twoTargetsReordered) "encoding/base64" ∧
  fst <$> render "root" ["linux"; "darwin"] Sample.hints
            (Sample.run Sample.twoTargets) =
  fst <$> render "root" ["linux"; "darwin"] Sample.hints
            (Sample.run Sample.twoTargetsReordered).
Proof.
  split; [vm_compute; discriminate|]. split; [vm_compute; discriminate|].
  refine (proj1 (render_deterministic "root" ["linux"; "darwin"] Sample.hints
                   (Sample.run Sample.twoTargets)
                   (Sample.run Sample.twoTargetsReordered) _)).
  apply canonical_sameState. vm_compute. reflexivity.
Defined.

(** ** Invariants of the accumulator *)

Section AccumulatorFacts.
Variable VendorlessPath : string → string.
Variable internal : bool.

Abbreviation AddEdge := (AddEdge VendorlessPath).
Abbreviation AddDep := (AddDep VendorlessPath internal).
Abbreviation performAll := (performAll VendorlessPath internal).

Lemma AddEdge_importers d from to q :
  importersOf (AddEdge d from to) q =
    if decide (VendorlessPath to = q) then
      if stringsContains (importersOf d q) (VendorlessPath from)
      then importersOf d q
      else importersOf d q ++ [VendorlessPath from]
    else importersOf d q.
Proof.
  unfold AddEdge, importersOf at 1. simpl.
  destruct (decide (VendorlessPath to = q)) as [<-|Hne].
  - destruct (stringsContains _ _); simpl; [done|].
    by rewrite lookup_insert_eq.
  - destruct (stringsContains _ _); simpl; [done|].
    by rewrite lookup_insert_ne.
Qed.

Lemma AddEdge_Deps d from to : Deps (AddEdge d from to) = Deps d.
Proof. done. Qed.

Lemma AddDep_importers d pkg goos q :
  importersOf (AddDep d pkg goos) q = importersOf d q.
Proof. unfold AddDep. by destruct (negb internal && _). Qed.

Lemma AddDep_Deps d pkg goos :
  Deps (AddDep d pkg goos) =
    if negb internal && isInternalPackage (VendorlessPath pkg) then Deps d
    else if stringsContains (Deps d) (VendorlessPath pkg) then Deps d
    else Deps d ++ [VendorlessPath pkg].
Proof.
  unfold AddDep. destruct (negb internal && _); [done|]. simpl.
  by destruct (stringsContains _ _).
Qed.

Lemma NoDup_add_absent (l : list string) x :
  NoDup l → NoDup (if stringsContains l x then l else l ++ [x]).
Proof.
  intros Hnd. destruct (stringsContains l x) eqn:E; [done|].
  apply stringsContains_false in E. apply NoDup_app. split; [done|].
  split; [|apply NoDup_singleton].
  intros y Hy ->%list_elem_of_singleton. done.
Qed.

Lemma elem_of_add_absent (l : list string) x y :
  y ∈ (if stringsContains l x then l else l ++ [x]) ↔ y ∈ l ∨ y = x.
Proof.
  destruct (stringsContains l x) eqn:E.
  - apply stringsContains_elem in E. split; [auto|]. by intros [?| ->].
  - by rewrite elem_of_app, list_elem_of_singleton.
Qed.

Lemma performAll_snoc d cs c :
  performAll d (cs ++ [c]) =
  perform VendorlessPath internal (performAll d cs) c.
Proof. apply foldl_snoc. Qed.

Lemma observedEdge_snoc cs c from to :
  observedEdge VendorlessPath (cs ++ [c]) from to ↔
  observedEdge VendorlessPath cs from to ∨
  ∃ f t, c = CallAddEdge f t ∧ VendorlessPath f = from ∧ VendorlessPath t = to.
Proof.
  unfold observedEdge. split.
  - intros (f & t & Hin & Hf & Ht). apply elem_of_app in Hin as [Hin|Hin].
    + left. eauto.
    + apply list_elem_of_singleton in Hin. right. eauto.
  - intros [(f & t & Hin & Hf & Ht)|(f & t & -> & Hf & Ht)];
      exists f, t; (split; [|done]); apply elem_of_app; [by left|].
    right. by apply list_elem_of_singleton.
Qed.

Lemma observedDep_snoc cs c pkg :
  observedDep VendorlessPath internal (cs ++ [c]) pkg ↔
  observedDep VendorlessPath internal cs pkg ∨
  ∃ p goos, c = CallAddDep p goos ∧ VendorlessPath p = pkg ∧
            (negb internal && isInternalPackage pkg) = false.
Proof.
  unfold observedDep. split.
  - intros (p & g & Hin & Hp & Hi). apply elem_of_app in Hin as [Hin|Hin].
    + left. eauto.
    + apply list_elem_of_singleton in Hin. right. eauto.
  - intros [(p & g & Hin & Hp & Hi)|(p & g & -> & Hp & Hi)];
      exists p, g; (split; [|done]); apply elem_of_app; [by left|].
    right. by apply list_elem_of_singleton.
Qed.

(** The importers of a package stay free of duplicates, and hold
    exactly the importers observed. *)
Lemma performAll_importers d cs to :
  NoDup (importersOf d to) →
  NoDup (importersOf (performAll d cs) to) ∧
  ∀ from, from ∈ importersOf (performAll d cs) to ↔
          from ∈ importersOf d to ∨ observedEdge VendorlessPath cs from to.
Proof.
  intros Hnd. induction cs as [|c cs [IHn IHe]] using rev_ind.
  - split; [done|]. intros from. split; [auto|]. intros [?|(f & t & Hin & _)];
      [done|]. by apply elem_of_nil in Hin.
  - rewrite performAll_snoc. destruct c as [f t|p g]; unfold perform.
    + rewrite AddEdge_importers.
      destruct (decide (VendorlessPath t = to)) as [Ht|Ht].
      * split; [by apply NoDup_add_absent|]. intros from.
        rewrite elem_of_add_absent, IHe, observedEdge_snoc. split.
        -- intros [[?|?]| ->]; eauto 10.
        -- intros [?|[?|(f' & t' & [= <- <-] & Hf & _)]]; auto.
      * split; [done|]. intros from. rewrite IHe, observedEdge_snoc. split.
        -- intros [?|?]; auto.
        -- intros [?|[?|(f' & t' & [= <- <-] & _ & Hc)]]; auto. done.
    + rewrite AddDep_importers. split; [done|]. intros from.
      rewrite IHe, observedEdge_snoc. split.
      * intros [?|?]; auto.
      * intros [?|[?|(f' & t' & Hc & _)]]; auto. done.
Qed.

(** The dependency list stays free of duplicates, and holds exactly
    the dependencies observed and not left out. *)
Lemma performAll_Deps d cs :
  NoDup (Deps d) →
  NoDup (Deps (performAll d cs)) ∧
  ∀ pkg, pkg ∈ Deps (performAll d cs) ↔
         pkg ∈ Deps d ∨ observedDep VendorlessPath internal cs pkg.
Proof.
  intros Hnd. induction cs as [|c cs [IHn IHe]] using rev_ind.
  - split; [done|]. intros pkg. split; [auto|]. intros [?|(p & g & Hin & _)];
      [done|]. by apply elem_of_nil in Hin.
  - rewrite performAll_snoc. destruct c as [f t|p g]; unfold perform.
    + rewrite AddEdge_Deps. split; [done|]. intros pkg.
      rewrite IHe, observedDep_snoc. split.
      * intros [?|?]; auto.
      * intros [?|[?|(p' & g' & Hc & _)]]; auto. done.
    + rewrite AddDep_Deps.
      destruct (negb internal && isInternalPackage (VendorlessPath p)) eqn:Hi.
      * split; [done|]. intros pkg. rewrite IHe, observedDep_snoc. split.
        -- intros [?|?]; auto.
        -- intros [?|[?|(p' & g' & [= <- <-] & <- & Hc)]]; auto. congruence.
      * split; [by apply NoDup_add_absent|]. intros pkg.
        rewrite elem_of_add_absent, IHe, observedDep_snoc. split.
        -- intros [[?|?]| ->]; eauto 10.
        -- intros [?|[?|(p' & g' & [= <- <-] & Hp & _)]]; auto.
Qed.

Lemma records_NoDup d from to :
  NoDup (importersOf d to) →
  records d from to = if bool_decide (from ∈ importersOf d to) then 1 else 0.
Proof.
  unfold records. induction (importersOf d to) as [|x l IH]; intros Hnd;
    [done|].
  apply NoDup_cons in Hnd as [Hx Hnd]. specialize (IH Hnd).
  rewrite filter_cons. destruct (decide (x = from)) as [->|Hne]; simpl.
  - rewrite IH, (bool_decide_eq_false_2 _ Hx).
    by rewrite bool_decide_eq_true_2 by by left.
  - rewrite IH. destruct (bool_decide (from ∈ l)) eqn:E.
    + apply bool_decide_eq_true in E.
      by rewrite bool_decide_eq_true_2 by by right.
    + apply bool_decide_eq_false in E.
      rewrite bool_decide_eq_false_2; [done|].
      intros [->|?]%elem_of_cons; done.
Qed.

End AccumulatorFacts.

Lemma zeroDeps_importers to : importersOf zeroDeps to = [].
Proof. done. Qed.

Lemma observed_importers VendorlessPath internal cs from to :
  from ∈ importersOf (performAll VendorlessPath internal zeroDeps cs) to ↔
  observedEdge VendorlessPath cs from to.
Proof.
  destruct (performAll_importers VendorlessPath internal zeroDeps cs to)
    as [_ He]; [rewrite zeroDeps_importers; constructor|].
  rewrite He, zeroDeps_importers. split; [|auto].
  intros [Hin|?]; [|done]. by apply elem_of_nil in Hin.
Qed.

Lemma NoDup_importers VendorlessPath internal cs to :
  NoDup (importersOf (performAll VendorlessPath internal zeroDeps cs) to).
Proof.
  apply performAll_importers. rewrite zeroDeps_importers. constructor.
Qed.

(** C8: after any sequence of calls on a fresh accumulator, every edge
    from an importer to an imported package, the two taken in this
    order, has at most one stored record: exactly one when the edge was
    observed, however often, in whatever order and among whatever other
    calls, and none when it was not.  The two directions are two edges:
    a pair of packages has one record between them when an edge was
    observed in one direction only, and two when it was observed in
    both. *)
Theorem AddEdge_records_once VendorlessPath internal cs from to :
  let d := performAll VendorlessPath internal zeroDeps cs in
  records d from to ≤ 1 ∧
  (observedEdge VendorlessPath cs from to → records d from to = 1) ∧
  (¬ observedEdge VendorlessPath cs from to → records d from to = 0) ∧
  (observedEdge VendorlessPath cs from to →
   ¬ observedEdge VendorlessPath cs to from →
   records d from to + records d to from = 1) ∧
  (observedEdge VendorlessPath cs from to →
   observedEdge VendorlessPath cs to from →
   records d from to + records d to from = 2).
Proof.
  intros d.
  assert (∀ f t, observedEdge VendorlessPath cs f t → records d f t = 1)
    as Hone.
  { intros f t Ho. unfold d. rewrite records_NoDup by apply NoDup_importers.
    by rewrite bool_decide_eq_true_2 by by apply observed_importers. }
  assert (∀ f t, ¬ observedEdge VendorlessPath cs f t → records d f t = 0)
    as Hnone.
  { intros f t Ho. unfold d. rewrite records_NoDup by apply NoDup_importers.
    rewrite bool_decide_eq_false_2; [done|]. by rewrite observed_importers. }
  split; [|split; [apply Hone|split; [apply Hnone|split]]].
  - unfold d. rewrite records_NoDup by apply NoDup_importers.
    destruct (bool_decide _); lia.
  - intros Ho Hn. by rewrite (Hone _ _ Ho), (Hnone _ _ Hn).
  - intros Ho Hr. by rewrite (Hone _ _ Ho), (Hone _ _ Hr).
Qed.

Lemma AddEdge_records_once_witness :
  observedEdge GoImports.VendorlessPath (loadCalls "root" Sample.twoTargets)
    "root" "example.com/y" ∧
  records (Sample.run Sample.twoTargets) "root" "example.com/y" = 1.
Proof.
  assert (observedEdge GoImports.VendorlessPath
            (loadCalls "root" Sample.twoTargets) "root" "example.com/y")
    as Ho.
  { exists "root", "example.com/y". split; [|split; vm_compute; reflexivity].
    vm_compute.
    repeat first [apply list_elem_of_here | apply list_elem_of_further]. }
  split; [exact Ho|].
  exact (proj1 (proj2 (AddEdge_records_once GoImports.VendorlessPath false
                         (loadCalls "root" Sample.twoTargets)
                         "root" "example.com/y")) Ho).
Defined.

(** C8 as the specification words it fails: for the pair taken without
    order two records are stored once an edge was observed in each
    direction, be it by two calls on a fresh accumulator or in the run
    over a root with a vendored copy of a package. *)
Lemma both_directions_recorded :
  (let d := performAll GoImports.VendorlessPath false zeroDeps
              [CallAddEdge "a" "b"; CallAddEdge "b" "a"] in
   importersOf d "b" = ["a"] ∧ importersOf d "a" = ["b"] ∧
   records d "a" "b" + records d "b" "a" = 2) ∧
  (let d := Sample.run Sample.vendored in
   importersOf d "example.com/b" = ["example.com/a"] ∧
   importersOf d "example.com/a" = ["example.com/b"; "root"] ∧
   records d "example.com/a" "example.com/b" +
   records d "example.com/b" "example.com/a" = 2).
Proof. repeat split; vm_compute; reflexivity. Qed.

(** ** One line for every dependency *)

Lemma NoDup_Deps VendorlessPath internal cs :
  NoDup (Deps (performAll VendorlessPath internal zeroDeps cs)).
Proof. apply performAll_Deps. constructor. Qed.

Lemma renderLines_length geese preferredWhy d lines d' :
  renderLines geese preferredWhy d = Some (lines, d') →
  length lines = length (Deps d).
Proof.
  intros Hr. pose proof (renderLines_lines geese preferredWhy d) as Hl.
  rewrite Hr in Hl. simpl in Hl. symmetry in Hl. apply mapM_Some in Hl.
  apply Forall2_length in Hl. rewrite <- Hl.
  apply Permutation_length, sortDeps_perm.
Qed.

(** C10: after any sequence of calls on a fresh accumulator the
    dependency list has no duplicates and holds exactly the dependencies
    that were observed and not left out as internal; the rendering has
    as many lines as there are dependencies, and every dependency has
    exactly one of them, under however many targets it was observed. *)
Theorem AddDep_no_duplicates VendorlessPath internal cs :
  let d := performAll VendorlessPath internal zeroDeps cs in
  NoDup (Deps d) ∧
  (∀ pkg, pkg ∈ Deps d ↔ observedDep VendorlessPath internal cs pkg) ∧
  ∀ geese preferredWhy lines d',
    renderLines geese preferredWhy d = Some (lines, d') →
    length lines = length (Deps d) ∧
    ∀ pkg, pkg ∈ Deps d →
      ∃ i, lineIs geese preferredWhy d lines i pkg ∧
           ∀ j, lineIs geese preferredWhy d lines j pkg → j = i.
Proof.
  intros d. pose proof (NoDup_Deps VendorlessPath internal cs) as Hnd.
  fold d in Hnd. split; [done|]. split.
  - intros pkg. unfold d.
    destruct (performAll_Deps VendorlessPath internal zeroDeps cs) as [_ He];
      [constructor|].
    rewrite He. split; [|auto]. intros [Hin|?]; [|done].
    by apply elem_of_nil in Hin.
  - intros geese preferredWhy lines d' Hr.
    split; [by eapply renderLines_length|]. intros pkg Hin.
    destruct (renderLines_lineIs _ _ _ _ _ _ Hr Hin) as [i Hi].
    exists i. split; [done|]. intros j [Hj _]. destruct Hi as [Hi _].
    eapply NoDup_lookup; [|exact Hj|exact Hi].
    by rewrite sortDeps_perm.
Qed.

Lemma AddDep_no_duplicates_witness :
  Deps (Sample.run Sample.twoTargets) =
    ["encoding/base64"; "encoding/json"; "encoding/binary"; "example.com/y"] ∧
  ∃ lines d',
    renderLines ["linux"; "darwin"] ∅ (Sample.run Sample.twoTargets) =
      Some (lines, d') ∧
    length lines = 4 ∧
    ∃ i, lineIs ["linux"; "darwin"] ∅ (Sample.run Sample.twoTargets) lines i
           "encoding/base64" ∧
         ∀ j, lineIs ["linux"; "darwin"] ∅ (Sample.run Sample.twoTargets)
                lines j "encoding/base64" → j = i.
Proof.
  split; [vm_compute; reflexivity|].
  pose proof (AddDep_no_duplicates GoImports.VendorlessPath false
                (loadCalls "root" Sample.twoTargets)) as H.
  cbv zeta in H.
  change (performAll GoImports.VendorlessPath false zeroDeps
            (loadCalls "root" Sample.twoTargets))
    with (Sample.run Sample.twoTargets) in H.
  destruct H as (_ & _ & Hlines).
  destruct (renderLines ["linux"; "darwin"] ∅ (Sample.run Sample.twoTargets))
    as [[lines d']|] eqn:E; [|vm_compute in E; discriminate].
  exists lines, d'. split; [reflexivity|].
  destruct (Hlines _ _ _ _ E) as [Hlen Hone]. split.
  - rewrite Hlen. vm_compute. reflexivity.
  - apply Hone. apply stringsContains_elem. vm_compute. reflexivity.
Defined.

(** ** Dependencies of the root itself *)

Lemma visitCalls_edge root goos p f t :
  CallAddEdge f t ∈ visitCalls root goos p ↔ f = PkgPath p ∧ t ∈ Imports p.
Proof.
  unfold visitCalls. rewrite elem_of_app, list_elem_of_fmap. split.
  - intros [(imp & [= -> ->] & Hin)|Hin]; [done|].
    destruct (String.eqb (PkgPath p) root).
    + by apply elem_of_nil in Hin.
    + by apply list_elem_of_singleton in Hin.
  - intros [-> Hin]. left. eauto.
Qed.

Lemma observedEdge_loadCalls VendorlessPath root loads from to :
  observedEdge VendorlessPath (loadCalls root loads) from to ↔
  importedBy VendorlessPath loads from to.
Proof.
  unfold observedEdge, importedBy, loadCalls. split.
  - intros (f & t & Hin & Hf & Ht).
    apply list_elem_of_bind in Hin as ([goos visited] & Hin & Hload).
    apply list_elem_of_bind in Hin as (p & Hin & Hp).
    apply visitCalls_edge in Hin as [-> Hin]. exists goos, visited, p, t. done.
  - intros (goos & visited & p & imp & Hload & Hp & Himp & Hf & Ht).
    exists (PkgPath p), imp. split; [|done].
    apply list_elem_of_bind. exists (goos, visited). split; [|done].
    apply list_elem_of_bind. exists p. split; [|done].
    by apply visitCalls_edge.
Qed.

Lemma append_nil_r s : s +:+ "" = s.
Proof.
  induction s as [|c s IH]; [done|].
  change (String c (s +:+ "") = String c s). by rewrite IH.
Qed.

Lemma whyText_single r pref : whyText [r] pref = "from " +:+ r.
Proof.
  unfold whyText, preferredIn. simpl. rewrite append_nil_r.
  destruct (String.eqb_spec pref "") as [->|Hp]; simpl; [done|].
  destruct (String.eqb_spec r pref) as [->|Hr]; simpl; [|done].
  by destruct (String.eqb_spec pref "").
Qed.

Lemma whyText_empty from pref : whyText from pref = "" ↔ from = [].
Proof.
  unfold whyText. destruct from as [|f from]; simpl; [done|].
  split; [intros [=]|done].
Qed.

(** C5, as the program has it: the callback records the edges of the
    root like those of every other package, so a dependency that is
    imported by the root and by nothing else has the root as its one
    candidate and is rendered with the text "from" and the root; a line
    carries no attribution text exactly when no edge into its
    dependency was recorded. *)
Theorem direct_dependency_attributed VendorlessPath internal root loads dep :
  (∀ d pkg preferredWhy,
     (Why d pkg preferredWhy).1 = "" ↔ importersOf d pkg = []) ∧
  (onlyDirect VendorlessPath loads root dep →
   let d := accumulate VendorlessPath internal root loads in
   importersOf d dep = [VendorlessPath root] ∧
   ∀ preferredWhy,
     (Why d dep preferredWhy).1 = "from " +:+ VendorlessPath root).
Proof.
  split.
  { intros d pkg preferredWhy. rewrite Why_text. apply whyText_empty. }
  intros [Hroot Honly] d.
  assert (importersOf d dep = [VendorlessPath root]) as E.
  { pose proof (NoDup_importers VendorlessPath internal
                  (loadCalls root loads) dep) as Hnd.
    assert (∀ f, f ∈ importersOf d dep ↔ f = VendorlessPath root) as Hin.
    { intros f. unfold d, accumulate.
      rewrite observed_importers, observedEdge_loadCalls. split; [auto|].
      by intros ->. }
    fold (accumulate VendorlessPath internal root loads) in Hnd. fold d in Hnd.
    destruct (importersOf d dep) as [|x [|y l]].
    - exfalso. eapply elem_of_nil. by apply Hin.
    - f_equal. apply Hin. by left.
    - exfalso. apply NoDup_cons in Hnd as [Hx _]. apply Hx.
      assert (x = VendorlessPath root) as -> by (apply Hin; by left).
      assert (y = VendorlessPath root) as -> by (apply Hin; right; by left).
      by left. }
  split; [done|]. intros preferredWhy.
  by rewrite Why_text, E, whyText_single.
Qed.

Lemma direct_onlyDirect :
  onlyDirect GoImports.VendorlessPath Sample.direct "root" "foo/bar".
Proof.
  split.
  - exists "linux", [Sample.pkg "runtime/cgo" [];
                     Sample.pkg "foo/bar" ["runtime/cgo"];
                     Sample.pkg "root" ["foo/bar"]],
      (Sample.pkg "root" ["foo/bar"]), "foo/bar".
    split; [by left|]. split; [right; right; by left|].
    split; [by left|]. split; vm_compute; reflexivity.
  - intros importer (goos & visited & p & imp & Hl & Hp & Hi & <- & Himp).
    apply list_elem_of_singleton in Hl as [= -> ->].
    repeat (apply elem_of_cons in Hp as [->|Hp]);
      [| | |by apply elem_of_nil in Hp]; simpl in Hi.
    + by apply elem_of_nil in Hi.
    + apply list_elem_of_singleton in Hi as ->. vm_compute in Himp.
      discriminate.
    + vm_compute. reflexivity.
Qed.

Lemma direct_dependency_attributed_witness :
  onlyDirect GoImports.VendorlessPath Sample.direct "root" "foo/bar" ∧
  importersOf (Sample.run Sample.direct) "foo/bar" = ["root"] ∧
  (Why (Sample.run Sample.direct) "foo/bar" ∅).1 = "from root".
Proof.
  split; [exact direct_onlyDirect|].
  destruct (proj2 (direct_dependency_attributed GoImports.VendorlessPath false
                     "root" Sample.direct "foo/bar") direct_onlyDirect)
    as [Hi Hw].
  split; [exact Hi|]. exact (Hw ∅).
Defined.

(** C5 as the specification words it fails: "foo/bar" is imported by
    the root and by no other package, yet its candidate set holds the
    root and its line carries the attribution "from root". *)
Lemma direct_dependency_has_candidate :
  onlyDirect GoImports.VendorlessPath Sample.direct "root" "foo/bar" ∧
  Sample.snapshot Sample.direct None =
    Rendered (header "root" +:+ formatLine "" " " " " "foo/bar" "from root") ∧
  importersOf (Sample.run Sample.direct) "foo/bar" ≠ [] ∧
  (Why (Sample.run Sample.direct) "foo/bar" ∅).1 ≠ "".
Proof.
  split; [exact direct_onlyDirect|].
  split; [vm_compute; reflexivity|]. split; vm_compute; discriminate.
Qed.

(** ** The flag columns *)

Lemma isGoPackage_standard pkg :
  Bytes.Contains pkg "." = false ∨ Bytes.Contains pkg "golang.org/x/" = true →
  isGoPackage pkg = true.
Proof.
  unfold isGoPackage. intros [->|Hx]; [done|].
  rewrite (Contains_app_l pkg "golang.org/x" "/" Hx). apply orb_true_r.
Qed.

(** C7: for an identity without a '.' and for an identity in the
    namespace "golang.org/x/" both flag columns of the line are blank,
    whatever the flag maps of the accumulator hold. *)
Theorem standard_no_flags geese preferredWhy d pkg :
  Bytes.Contains pkg "." = false ∨ Bytes.Contains pkg "golang.org/x/" = true →
  unsafeIcon d pkg = " " ∧ cgoIcon d pkg = " " ∧
  fst <$> renderLine geese preferredWhy d pkg =
    (λ os, formatLine os " " " " pkg (Why d pkg preferredWhy).1) <$>
      osMarkers d geese pkg.
Proof.
  intros Hstd%isGoPackage_standard.
  assert (unsafeIcon d pkg = " ") as HU
    by (unfold unsafeIcon; rewrite Hstd; simpl; by rewrite andb_false_r).
  assert (cgoIcon d pkg = " ") as HC
    by (unfold cgoIcon; rewrite Hstd; simpl; by rewrite andb_false_r).
  split; [done|]. split; [done|].
  rewrite renderLine_line, Why_text. unfold lineOf. rewrite HU, HC.
  by destruct (osMarkers d geese pkg).
Qed.

Lemma standard_no_flags_witness :
  flagOf (UsesCGO (Sample.run Sample.direct)) "foo/bar" = true ∧
  cgoIcon (Sample.run Sample.direct) "foo/bar" = " " ∧
  unsafeIcon (Sample.run Sample.direct) "foo/bar" = " ".
Proof.
  split; [vm_compute; reflexivity|].
  destruct (standard_no_flags ["linux"] ∅ (Sample.run Sample.direct) "foo/bar")
    as (HU & HC & _); [left; vm_compute; reflexivity|].
  split; [exact HC|exact HU].
Defined.

(** ** The target column *)

Lemma length_append s t :
  String.length (s +:+ t) = String.length s + String.length t.
Proof.
  induction s as [|c s IH]; [done|].
  change (S (String.length (s +:+ t)) = S (String.length s + String.length t)).
  by rewrite IH.
Qed.

Lemma append_assoc s t u : (s +:+ t) +:+ u = s +:+ (t +:+ u).
Proof.
  induction s as [|c s IH]; [done|].
  change (String c ((s +:+ t) +:+ u) = String c (s +:+ (t +:+ u))).
  by rewrite IH.
Qed.

Lemma encode_upper_ascii c :
  (Bytes.val c < 128)%N →
  Utf8.encodeRune (Utf8.ToUpper (Bytes.val c)) =
  String (Utf8.byte (Utf8.ToUpper (Bytes.val c))) "".
Proof.
  intros Hc. unfold Utf8.encodeRune.
  assert (Utf8.ToUpper (Bytes.val c) < 0x80)%N as Hlt.
  { unfold Utf8.ToUpper.
    repeat match goal with
           | |- context [(?a <=? ?b)%N] => destruct (N.leb_spec a b)
           | |- context [(?a =? ?b)%N] => destruct (N.eqb_spec a b)
           end; simpl; lia. }
  apply N.ltb_lt in Hlt. by rewrite Hlt.
Qed.

Lemma writeMarkers_ascii d pkg geese : ∀ osBuf,
  Forall asciiName geese →
  writeMarkers d pkg geese osBuf =
  Some (osBuf +:+
        joinAll (upperInitial <$> filter (λ goos, onOS d pkg goos = true) geese)).
Proof.
  induction geese as [|goos rest IH]; intros osBuf Hall; simpl.
  - by rewrite append_nil_r.
  - apply Forall_cons in Hall as [(c & tl & -> & Hc) Hall].
    rewrite filter_cons. destruct (onOS d pkg (String c tl)) eqn:Hon; simpl.
    + destruct (decide (true = true)); [|done].
      rewrite (IH _ Hall), (encode_upper_ascii _ Hc). simpl.
      by rewrite append_assoc.
    + destruct (decide (false = true)); [done|]. by apply IH.
Qed.

Lemma markers_length (l : list string) :
  Forall asciiName l → String.length (joinAll (upperInitial <$> l)) = length l.
Proof.
  induction 1 as [|goos l (c & tl & -> & _) _ IH]; [done|].
  rewrite fmap_cons. cbn [joinAll]. rewrite length_append, IH. done.
Qed.

Lemma filter_all_length {A} (P : A → Prop) `{!∀ x, Decision (P x)} (l : list A) :
  length (filter P l) = length l ↔ Forall P l.
Proof.
  induction l as [|x l IH]; [by split; [constructor|]|].
  rewrite filter_cons, Forall_cons. destruct (decide (P x)) as [Hx|Hx]; simpl.
  - rewrite <- IH. split; [intros [= ?]; auto|intros [_ ->]; done].
  - pose proof (length_filter P l). split; [lia|]. by intros [? _].
Qed.

Lemma osMarkers_ascii d geese pkg :
  Forall asciiName geese →
  let seen := filter (λ goos, onOS d pkg goos = true) geese in
  osMarkers d geese pkg =
  Some (if length seen =? length geese then ""
        else joinAll (upperInitial <$> seen)).
Proof.
  intros Hall seen. unfold osMarkers.
  rewrite (writeMarkers_ascii _ _ _ _ Hall). simpl. fold seen.
  change ("" +:+ joinAll (upperInitial <$> seen))
    with (joinAll (upperInitial <$> seen)).
  rewrite markers_length; [done|].
  apply Forall_forall. intros goos [_ Hin]%list_elem_of_filter.
  by eapply Forall_forall in Hall.
Qed.

(** C6, as the program has it: with target names that begin with an
    ASCII byte, a dependency
    observed under every target of the run has an empty marker field,
    which the format pads to three blanks; a dependency that some target
    did not observe has, for every target that did observe it and in the
    order of the targets, the first byte of that target's name in upper
    case. *)
Theorem target_markers geese preferredWhy d pkg :
  Forall asciiName geese →
  let seen := filter (λ goos, onOS d pkg goos = true) geese in
  let line os :=
    formatLine os (unsafeIcon d pkg) (cgoIcon d pkg) pkg
      (Why d pkg preferredWhy).1 in
  (Forall (λ goos, onOS d pkg goos = true) geese →
   osMarkers d geese pkg = Some "" ∧
   fst <$> renderLine geese preferredWhy d pkg = Some (line "")) ∧
  (Exists (λ goos, onOS d pkg goos = false) geese →
   osMarkers d geese pkg = Some (joinAll (upperInitial <$> seen)) ∧
   String.length (joinAll (upperInitial <$> seen)) = length seen ∧
   fst <$> renderLine geese preferredWhy d pkg =
     Some (line (joinAll (upperInitial <$> seen)))).
Proof.
  intros Hall seen line.
  pose proof (osMarkers_ascii d geese pkg Hall) as Hos. cbv zeta in Hos.
  fold seen in Hos.
  assert (∀ os, osMarkers d geese pkg = Some os →
                fst <$> renderLine geese preferredWhy d pkg = Some (line os))
    as Hline.
  { intros os E. rewrite renderLine_line. unfold lineOf. rewrite E. simpl.
    unfold line. by rewrite Why_text. }
  split.
  - intros Hevery.
    assert (length seen = length geese) as Heq by by apply filter_all_length.
    rewrite Heq, Nat.eqb_refl in Hos. auto.
  - intros Hsome.
    assert (length seen ≠ length geese) as Hne.
    { intros Heq. apply filter_all_length in Heq.
      apply Exists_exists in Hsome as (g & Hg & Hoff).
      eapply Forall_forall in Heq; [|exact Hg]. congruence. }
    apply Nat.eqb_neq in Hne. rewrite Hne in Hos.
    split; [done|]. split; [|auto]. apply markers_length.
    apply Forall_forall. intros goos [_ Hin]%list_elem_of_filter.
    by eapply Forall_forall in Hall.
Qed.

Lemma target_markers_witness :
  Text.padLeft 3 "" = "   " ∧
  osMarkers (Sample.run Sample.twoTargets) ["linux"; "darwin"]
    "encoding/base64" = Some "" ∧
  Text.padLeft 3 "L" = "  L" ∧
  joinAll (upperInitial <$>
             filter (λ goos, onOS (Sample.run Sample.twoTargets)
                               "encoding/binary" goos = true)
               ["linux"; "darwin"]) = "L" ∧
  osMarkers (Sample.run Sample.twoTargets) ["linux"; "darwin"]
    "encoding/binary" =
    Some (joinAll (upperInitial <$>
                     filter (λ goos, onOS (Sample.run Sample.twoTargets)
                                       "encoding/binary" goos = true)
                       ["linux"; "darwin"])).
Proof.
  assert (Forall asciiName ["linux"; "darwin"]) as Hall.
  { apply Forall_cons. split; [|apply Forall_cons; split; [|constructor]];
      eexists _, _; (split; [reflexivity|]); vm_compute; reflexivity. }
  assert (Forall (λ goos, onOS (Sample.run Sample.twoTargets)
                            "encoding/base64" goos = true)
            ["linux"; "darwin"]) as Hevery.
  { apply Forall_cons. split; [vm_compute; reflexivity|].
    apply Forall_cons. split; [vm_compute; reflexivity|]. constructor. }
  assert (Exists (λ goos, onOS (Sample.run Sample.twoTargets)
                            "encoding/binary" goos = false)
            ["linux"; "darwin"]) as Hsome.
  { apply Exists_cons_tl, Exists_cons_hd. vm_compute. reflexivity. }
  destruct (proj1 (target_markers ["linux"; "darwin"] ∅
                     (Sample.run Sample.twoTargets) "encoding/base64" Hall)
              Hevery) as [Hblank _].
  destruct (proj2 (target_markers ["linux"; "darwin"] ∅
                     (Sample.run Sample.twoTargets) "encoding/binary" Hall)
              Hsome) as (Hletters & _ & _).
  split; [reflexivity|]. split; [exact Hblank|]. split; [reflexivity|].
  split; [vm_compute; reflexivity|exact Hletters].
Defined.

(** ** The hints of the previous snapshot *)

Lemma scanFrom_cons i w w' words :
  scanFrom i (w :: w' :: words) =
  if String.eqb w "from" then i else scanFrom (S i) (w' :: words).
Proof. done. Qed.

Lemma scanFrom_found before rest : ∀ i,
  "from" ∉ before →
  scanFrom i (before ++ "from" :: rest) = i + length before.
Proof.
  induction before as [|w before IH]; intros i Hnot.
  - simpl. lia.
  - apply not_elem_of_cons in Hnot as [Hw Hnot].
    assert (∃ w' ws, before ++ "from" :: rest = w' :: ws) as (w' & ws & E)
      by (destruct before; simpl; eauto).
    change ((w :: before) ++ "from" :: rest)
      with (w :: (before ++ "from" :: rest)).
    rewrite E, scanFrom_cons, <- E.
    destruct (String.eqb_spec w "from") as [->|_]; [done|].
    rewrite IH by done. simpl. lia.
Qed.

Lemma scanFrom_none words : ∀ i,
  "from" ∉ words → scanFrom i words = i + (length words - 1).
Proof.
  induction words as [|w words IH]; intros i Hnot; [simpl; lia|].
  apply not_elem_of_cons in Hnot as [Hw Hnot].
  destruct words as [|w' words'].
  - simpl. destruct (String.eqb_spec w "from"); [done|lia].
  - rewrite scanFrom_cons.
    destruct (String.eqb_spec w "from") as [->|_]; [done|].
    rewrite IH by done. simpl. lia.
Qed.

(** What one line does to the map. *)
Lemma parseLine_cases m line :
  (("from" ∉ Text.Fields line) ∧ parseLine m line = Some m) ∨
  (∃ rest, Text.Fields line = "from" :: rest ∧ parseLine m line = Some m) ∨
  (∃ before, Text.Fields line = before ++ ["from"] ∧ ("from" ∉ before) ∧
             parseLine m line = Some m) ∨
  (∃ before dep src after,
     Text.Fields line = before ++ [dep; "from"; src] ++ after ∧
     ("from" ∉ before) ∧ dep ≠ "from" ∧
     parseLine m line = Some (<[dep := Bytes.TrimRight src "+"]> m)).
Proof.
  unfold parseLine. set (words := Text.Fields line).
  destruct (decide ("from" ∈ words)) as [Hin|Hnot].
  - right. apply list_elem_of_split_l in Hin as (B & R & E & HB).
    rewrite E, (scanFrom_found _ _ _ HB). simpl.
    destruct B as [|b B _] using rev_ind.
    { left. exists R. done. }
    right. destruct R as [|src after].
    { left. exists (B ++ [b]). split; [done|]. split; [done|].
      rewrite !length_app. simpl.
      destruct (Z.ltb_spec (Z.of_nat (length B + 1)) 1); [done|].
      destruct (Z.geb_spec (Z.of_nat (length B + 1))
                  (Z.of_nat (length B + 1 + 1) - 1)); [done|lia]. }
    right. exists B, b, src, after.
    apply not_elem_of_app in HB as [HB Hb].
    split; [by rewrite <- !app_assoc|]. split; [done|].
    split; [by intros ->; apply Hb; left|].
    rewrite !length_app. simpl.
    destruct (Z.ltb_spec (Z.of_nat (length B + 1)) 1); [lia|].
    destruct (Z.geb_spec (Z.of_nat (length B + 1))
                (Z.of_nat (length B + 1 + S (S (length after))) - 1)); [lia|].
    simpl.
    replace (Z.to_nat (Z.of_nat (length B + 1) - 1)) with (length B) by lia.
    replace (Z.to_nat (Z.of_nat (length B + 1) + 1)) with (length B + 2) by lia.
    rewrite <- app_assoc. simpl.
    rewrite (list_lookup_middle B _ b (length B)) by done. simpl.
    replace (B ++ b :: "from" :: src :: after)
      with ((B ++ [b; "from"]) ++ src :: after) by by rewrite <- app_assoc.
    rewrite (list_lookup_middle _ _ src (length B + 2));
      [done|rewrite length_app; simpl; lia].
  - left. split; [done|]. rewrite (scanFrom_none _ _ Hnot). simpl.
    destruct (Z.ltb_spec (Z.of_nat (length words - 1)) 1); [done|].
    destruct (Z.geb_spec (Z.of_nat (length words - 1))
                (Z.of_nat (length words) - 1)); [done|lia].
Qed.

Lemma parseLine_is_Some m line : is_Some (parseLine m line).
Proof.
  destruct (parseLine_cases m line)
    as [[_ H]|[(? & _ & H)|[(? & _ & _ & H)|(? & ? & ? & ? & _ & _ & _ & H)]]];
    rewrite H; eauto.
Qed.

Lemma parseLines_is_Some lines : ∀ m, is_Some (parseLines m lines).
Proof.
  induction lines as [|line rest IH]; intros m; simpl; [eauto|].
  destruct (parseLine_is_Some m line) as [m' ->]. simpl. apply IH.
Qed.

Lemma from_first_unique (before before' : list string) rest rest' :
  "from" ∉ before → "from" ∉ before' →
  before ++ "from" :: rest = before' ++ "from" :: rest' →
  before = before' ∧ rest = rest'.
Proof.
  revert before'. induction before as [|w before IH]; intros [|w' before'];
    simpl; intros Hb Hb' E.
  - by injection E.
  - injection E as <- _. exfalso. apply Hb'. by left.
  - injection E as -> _. exfalso. apply Hb. by left.
  - injection E as <- E. apply not_elem_of_cons in Hb as [_ Hb].
    apply not_elem_of_cons in Hb' as [_ Hb'].
    destruct (IH _ Hb Hb' E) as [-> ->]. done.
Qed.

Lemma TrimRight_plus src :
  ∃ tail, src = Bytes.TrimRight src "+" +:+ tail ∧
          Forall (λ c, c = "+"%char) (String.list_ascii_of_string tail) ∧
          ∀ t, Bytes.TrimRight src "+" ≠ t +:+ "+".
Proof.
  induction src as [|c s (tail & E & Hall & Hend)].
  - exists "". split; [done|]. split; [constructor|]. by intros [|? ?].
  - cbn [Bytes.TrimRight]. destruct (Bytes.TrimRight s "+") as [|a T] eqn:ET.
    + cbn [Bytes.inCutset]. rewrite orb_false_r.
      destruct (Ascii.eqb_spec "+" c) as [<-|Hc].
      * exists (String "+" tail). split; [by rewrite E|].
        split; [by constructor|]. by intros [|? ?].
      * exists tail. split; [by rewrite E|]. split; [done|].
        intros [|c' [|? ?]]; intros [=]; congruence.
    + exists tail. split; [by rewrite E|]. split; [done|].
      intros [|c' t]; [by intros [=]|].
      intros [= _ Ht]. by apply (Hend t).
Qed.

(** C9: parsePreferredWhy returns a map for every input, no index
    expression of its loop is ever out of range.  A line changes the map
    only when its tokens hold a token "from" with a token before it and
    a token after it; every line without such a token leaves the map as
    it is.  The line that contributes is the one whose first token
    "from" stands between two tokens: it maps the token before to the
    token after without its trailing '+' bytes. *)
Theorem parsePreferredWhy_total :
  (∀ r, is_Some (parsePreferredWhy r)) ∧
  (∀ m line, is_Some (parseLine m line)) ∧
  (∀ m line m', parseLine m line = Some m' → m' ≠ m → hasFromBetween line) ∧
  (∀ m line, ¬ hasFromBetween line → parseLine m line = Some m) ∧
  (∀ m line before dep src after,
     Text.Fields line = before ++ [dep; "from"; src] ++ after →
     "from" ∉ before → dep ≠ "from" →
     parseLine m line = Some (<[dep := Bytes.TrimRight src "+"]> m)) ∧
  (∀ src, ∃ tail,
     src = Bytes.TrimRight src "+" +:+ tail ∧
     Forall (λ c, c = "+"%char) (String.list_ascii_of_string tail) ∧
     ∀ t, Bytes.TrimRight src "+" ≠ t +:+ "+").
Proof.
  split; [intros r; apply parseLines_is_Some|].
  split; [apply parseLine_is_Some|].
  assert (∀ m line m', parseLine m line = Some m' → m' ≠ m →
                       hasFromBetween line) as Honly.
  { intros m line m' E Hne.
    destruct (parseLine_cases m line)
      as [[_ H]|[(? & _ & H)|[(? & _ & _ & H)|(B & dep & src & after & F & _)]]];
      try (rewrite H in E; congruence).
    by exists B, dep, src, after. }
  split; [exact Honly|]. split.
  { intros m line Hno. destruct (parseLine_is_Some m line) as [m' E].
    rewrite E. f_equal. destruct (decide (m' = m)) as [|Hne]; [done|].
    destruct Hno. by eapply Honly. }
  split; [|apply TrimRight_plus].
  intros m line before dep src after F Hb Hd.
  assert ("from" ∉ before ++ [dep]) as Hbd.
  { intros [?|Hin%list_elem_of_singleton]%elem_of_app; congruence. }
  destruct (parseLine_cases m line)
    as [[Hno _]|[(R & F' & _)|[(B & F' & HB & _)
       |(B & dep' & src' & after' & F' & HB & Hd' & H)]]].
  - destruct Hno. rewrite F. apply elem_of_app. right. right. by left.
  - rewrite F in F'. destruct before; simpl in F'; [congruence|].
    injection F' as -> _. destruct Hb. by left.
  - rewrite F in F'.
    destruct (from_first_unique (before ++ [dep]) B (src :: after) [])
      as [_ [=]]; [done|done|].
    by rewrite <- app_assoc.
  - rewrite F in F'.
    assert ("from" ∉ B ++ [dep']) as HBd.
    { intros [?|Hin%list_elem_of_singleton]%elem_of_app; congruence. }
    destruct (from_first_unique (before ++ [dep]) (B ++ [dep'])
                (src :: after) (src' :: after')) as [E1 [= -> _]];
      [done|done|by rewrite <- !app_assoc|].
    apply app_inj_tail in E1 as [_ ->]. done.
Qed.

Lemma parsePreferredWhy_total_witness :
  parseLine ∅ "encoding/binary    from encoding/base64+" =
  Some {["encoding/binary" := "encoding/base64"]}.
Proof.
  exact (proj1 (proj2 (proj2 (proj2 (proj2 parsePreferredWhy_total))))
           ∅ "encoding/binary    from encoding/base64+"
           [] "encoding/binary" "encoding/base64+" []
           eq_refl (not_elem_of_nil _)
           (λ E, eq_ind "encoding/binary"
                   (λ s, if String.eqb s "from" then False else True) I
                   "from" E)).
Defined.

(** C6 as the specification words it, for every target name, fails.
    With the target list "linux," the dependency "fmt" is observed
    under both targets, and indexing the empty name stops the run before
    any line is written.  With a target name that begins with the byte
    0xC3 the marker is encoded in two bytes, the length test of the
    collapse compares bytes with targets, and the field of a dependency
    observed under the only target is not blank. *)
Lemma target_markers_need_ascii_names :
  (Forall (λ goos, onOS (Sample.run Sample.emptyTarget) "fmt" goos = true)
     ["linux"; ""] ∧
   osMarkers (Sample.run Sample.emptyTarget) ["linux"; ""] "fmt" = None ∧
   Sample.snapshot Sample.emptyTarget None = Panic) ∧
  (Forall (λ goos, onOS (Sample.run Sample.latinTarget) "fmt" goos = true)
     [Sample.latinName] ∧
   osMarkers (Sample.run Sample.latinTarget) [Sample.latinName] "fmt" =
     Some (String (Utf8.byte 195) (String (Utf8.byte 131) "")) ∧
   osMarkers (Sample.run Sample.latinTarget) [Sample.latinName] "fmt" ≠
     Some "").
Proof.
  split.
  - split; [|split; vm_compute; reflexivity].
    apply Forall_cons. split; [vm_compute; reflexivity|].
    apply Forall_cons. split; [vm_compute; reflexivity|]. constructor.
  - split; [|split; [vm_compute; reflexivity|vm_compute; discriminate]].
    apply Forall_cons. split; [vm_compute; reflexivity|]. constructor.
Qed.

(** ** Rendering produces a snapshot *)

Lemma writeMarkers_is_Some d pkg geese : ∀ osBuf,
  Forall (λ goos, goos ≠ "") geese → is_Some (writeMarkers d pkg geese osBuf).
Proof.
  induction geese as [|goos rest IH]; intros osBuf Hall; simpl; [eauto|].
  apply Forall_cons in Hall as [Hne Hall].
  destruct (onOS d pkg goos); [|by apply IH].
  destruct goos; [done|by apply IH].
Qed.

Lemma lineOf_is_Some geese preferredWhy d pkg :
  Forall (λ goos, goos ≠ "") geese → is_Some (lineOf geese preferredWhy d pkg).
Proof.
  intros Hall. unfold lineOf, osMarkers.
  destruct (writeMarkers_is_Some d pkg geese "" Hall) as [os ->]. simpl. eauto.
Qed.

(** With target names that are not empty the rendering never panics. *)
Lemma render_is_Some pkg geese preferredWhy d :
  Forall (λ goos, goos ≠ "") geese → is_Some (render pkg geese preferredWhy d).
Proof.
  intros Hall.
  assert (is_Some (fst <$> render pkg geese preferredWhy d)) as [out E].
  { rewrite render_text, renderLines_lines.
    assert (is_Some (mapM (lineOf geese preferredWhy d) (sortDeps (Deps d))))
      as [ls ->]; [|simpl; eauto].
    induction (sortDeps (Deps d)) as [|p l [ls IH]]; [by eexists|].
    cbn [mapM]. destruct (lineOf_is_Some geese preferredWhy d p Hall) as [x ->].
    simpl. rewrite IH. simpl. eauto. }
  destruct (render pkg geese preferredWhy d); [eauto|done].
Qed.

(** ** Examples from the source and the specification *)

(** The example in the comment of parsePreferredWhy. *)
Example parsePreferredWhy_comment :
  parsePreferredWhy
    ("[...]" +:+ Text.nl +:+
     "encoding           from encoding/json" +:+ Text.nl +:+
     "encoding/binary    from encoding/base64+" +:+ Text.nl) =
  Some {["encoding" := "encoding/json";
         "encoding/binary" := "encoding/base64"]}.
Proof. vm_compute. reflexivity. Qed.

(** Only the first token "from" of a line is looked at. *)
Example first_from_decides :
  hasFromBetween "from a from b" ∧ parseLine ∅ "from a from b" = Some ∅.
Proof.
  split; [|vm_compute; reflexivity].
  exists ["from"], "a", "b", []. vm_compute. reflexivity.
Qed.

(** A snapshot is stable under its own hints: rendering with the hints
    parsed from the rendered text gives the same text. *)
Example snapshot_twoTargets :
  Sample.snapshot Sample.twoTargets None =
    Rendered (header "root" +:+
          formatLine "" "U" " " "example.com/y" "from root" +:+
          formatLine "" " " " " "encoding/base64" "from encoding/binary+" +:+
          formatLine "L" " " " " "encoding/binary" "from example.com/y+" +:+
          formatLine "L" " " " " "encoding/json" "from encoding/binary+") ∧
  match Sample.snapshot Sample.twoTargets None with
  | Rendered out =>
      Sample.snapshot Sample.twoTargets (Some out) = Rendered out
  | _ => False
  end.
Proof. split; vm_compute; reflexivity. Qed.

Example VendorlessPath_examples :
  GoImports.VendorlessPath "foo/bar/vendor/a/b" = "a/b" ∧
  GoImports.VendorlessPath "vendor/golang.org/x/net/idna" =
    "golang.org/x/net/idna" ∧
  GoImports.VendorlessPath "encoding/json" = "encoding/json".
Proof. repeat split; reflexivity. Qed.

Example Fields_example :
  Text.Fields "  encoding/binary   from encoding/base64+ " =
    ["encoding/binary"; "from"; "encoding/base64+"].
Proof. reflexivity. Qed.

Example scanLines_example :
  Text.scanLines ("a" +:+ Text.nl +:+ Text.nl +:+ "bc") = ["a"; ""; "bc"].
Proof. reflexivity. Qed.

(** * Further properties of the program *)

(** ** The accumulator: flags, targets and the order of the calls *)

Section AccumulatorMore.
Variable VendorlessPath : string → string.
Variable internal : bool.

Abbreviation AddEdge := (AddEdge VendorlessPath).
Abbreviation AddDep := (AddDep VendorlessPath internal).
Abbreviation performAll := (performAll VendorlessPath internal).

Lemma flagOf_insert (m : gmap string bool) k q :
  flagOf (<[k := true]> m) q = if decide (k = q) then true else flagOf m q.
Proof.
  unfold flagOf. rewrite lookup_insert. by destruct (decide (k = q)).
Qed.

Lemma AddEdge_UsesUnsafe d from to q :
  flagOf (UsesUnsafe (AddEdge d from to)) q =
    if decide (VendorlessPath to = "unsafe" ∧ VendorlessPath from = q)
    then true else flagOf (UsesUnsafe d) q.
Proof.
  unfold AddEdge. simpl.
  destruct (String.eqb_spec (VendorlessPath to) "unsafe") as [Ht|Ht].
  - rewrite flagOf_insert. destruct (decide (VendorlessPath from = q));
      destruct (decide _) as [[? ?]|Hn]; try done. destruct Hn. done.
  - destruct (decide _) as [[? ?]|Hn]; done.
Qed.

Lemma AddEdge_UsesCGO d from to q :
  flagOf (UsesCGO (AddEdge d from to)) q =
    if decide (VendorlessPath to = "runtime/cgo" ∧ VendorlessPath from = q)
    then true else flagOf (UsesCGO d) q.
Proof.
  unfold AddEdge. simpl.
  destruct (String.eqb_spec (VendorlessPath to) "runtime/cgo") as [Ht|Ht].
  - rewrite flagOf_insert. destruct (decide (VendorlessPath from = q));
      destruct (decide _) as [[? ?]|Hn]; try done. destruct Hn. done.
  - destruct (decide _) as [[? ?]|Hn]; done.
Qed.

Lemma AddEdge_onOS d from to pkg goos :
  onOS (AddEdge d from to) pkg goos = onOS d pkg goos.
Proof. done. Qed.

Lemma AddDep_flags d pkg goos :
  UsesUnsafe (AddDep d pkg goos) = UsesUnsafe d ∧
  UsesCGO (AddDep d pkg goos) = UsesCGO d.
Proof. unfold AddDep. by destruct (negb internal && _). Qed.

Lemma AddDep_onOS d p g pkg goos :
  onOS (AddDep d p g) pkg goos =
    if decide ((negb internal && isInternalPackage (VendorlessPath p)) = false
               ∧ VendorlessPath p = pkg ∧ g = goos)
    then true else onOS d pkg goos.
Proof.
  unfold AddDep, onOS.
  destruct (negb internal && isInternalPackage (VendorlessPath p)) eqn:E.
  - destruct (decide _) as [[? _]|_]; done.
  - simpl. rewrite lookup_insert.
    destruct (decide ((VendorlessPath p, g) = (pkg, goos))) as [[= <- <-]|Hne].
    + destruct (decide _) as [_|Hn]; [done|]. destruct Hn. done.
    + destruct (decide _) as [(_ & <- & <-)|_]; done.
Qed.


Lemma observedOn_snoc cs c pkg goos :
  observedOn VendorlessPath internal (cs ++ [c]) pkg goos ↔
  observedOn VendorlessPath internal cs pkg goos ∨
  ∃ p, c = CallAddDep p goos ∧ VendorlessPath p = pkg ∧
       (negb internal && isInternalPackage pkg) = false.
Proof.
  unfold observedOn. split.
  - intros (p & Hin & Hp & Hi). apply elem_of_app in Hin as [Hin|Hin].
    + left. eauto.
    + apply list_elem_of_singleton in Hin. right. eauto.
  - intros [(p & Hin & Hp & Hi)|(p & -> & Hp & Hi)];
      exists p; (split; [|done]); apply elem_of_app; [by left|].
    right. by apply list_elem_of_singleton.
Qed.

(** The flag of unsafe use is set by an edge into "unsafe" and is never
    cleared. *)
Lemma performAll_UsesUnsafe d cs q :
  flagOf (UsesUnsafe (performAll d cs)) q = true ↔
  flagOf (UsesUnsafe d) q = true ∨ observedEdge VendorlessPath cs q "unsafe".
Proof.
  induction cs as [|c cs IH] using rev_ind.
  - split; [auto|]. intros [?|(f & t & Hin & _)]; [done|].
    by apply elem_of_nil in Hin.
  - rewrite performAll_snoc, observedEdge_snoc.
    destruct c as [f t|p g]; unfold perform.
    + rewrite AddEdge_UsesUnsafe. destruct (decide _) as [[Ht Hf]|Hn].
      * split; [|done]. intros _. right. right. by exists f, t.
      * rewrite IH. split; [intros [?|?]; auto|].
        intros [?|[?|(f' & t' & [= <- <-] & Hf & Ht)]]; [auto|auto|].
        destruct Hn. done.
    + rewrite (proj1 (AddDep_flags _ _ _)), IH. split; [intros [?|?]; auto|].
      intros [?|[?|(f' & t' & Hc & _)]]; auto. done.
Qed.

Lemma performAll_UsesCGO d cs q :
  flagOf (UsesCGO (performAll d cs)) q = true ↔
  flagOf (UsesCGO d) q = true ∨ observedEdge VendorlessPath cs q "runtime/cgo".
Proof.
  induction cs as [|c cs IH] using rev_ind.
  - split; [auto|]. intros [?|(f & t & Hin & _)]; [done|].
    by apply elem_of_nil in Hin.
  - rewrite performAll_snoc, observedEdge_snoc.
    destruct c as [f t|p g]; unfold perform.
    + rewrite AddEdge_UsesCGO. destruct (decide _) as [[Ht Hf]|Hn].
      * split; [|done]. intros _. right. right. by exists f, t.
      * rewrite IH. split; [intros [?|?]; auto|].
        intros [?|[?|(f' & t' & [= <- <-] & Hf & Ht)]]; [auto|auto|].
        destruct Hn. done.
    + rewrite (proj2 (AddDep_flags _ _ _)), IH. split; [intros [?|?]; auto|].
      intros [?|[?|(f' & t' & Hc & _)]]; auto. done.
Qed.

Lemma performAll_onOS d cs pkg goos :
  onOS (performAll d cs) pkg goos = true ↔
  onOS d pkg goos = true ∨ observedOn VendorlessPath internal cs pkg goos.
Proof.
  induction cs as [|c cs IH] using rev_ind.
  - split; [auto|]. intros [?|(p & Hin & _)]; [done|].
    by apply elem_of_nil in Hin.
  - rewrite performAll_snoc, observedOn_snoc.
    destruct c as [f t|p g]; unfold perform.
    + rewrite AddEdge_onOS, IH. split; [intros [?|?]; auto|].
      intros [?|[?|(p' & Hc & _)]]; auto. done.
    + rewrite AddDep_onOS. destruct (decide _) as [(Hi & Hp & Hg)|Hn].
      * split; [|done]. intros _. right. right. exists p.
        subst. done.
      * rewrite IH. split; [intros [?|?]; auto|].
        intros [?|[?|(p' & [= <- <-] & Hp & Hi)]]; [auto|auto|].
        destruct Hn. subst. done.
Qed.

End AccumulatorMore.

(** X2: the flag columns.  After any sequence of calls on a fresh
    accumulator a package is flagged as using unsafe (cgo) exactly when
    an edge from it into "unsafe" ("runtime/cgo") was observed, and its
    line shows U (C) exactly when it is so flagged and is not a Go
    package. *)
Theorem flags_follow_edges VendorlessPath internal cs pkg :
  let d := performAll VendorlessPath internal zeroDeps cs in
  (flagOf (UsesUnsafe d) pkg = true ↔
     observedEdge VendorlessPath cs pkg "unsafe") ∧
  (flagOf (UsesCGO d) pkg = true ↔
     observedEdge VendorlessPath cs pkg "runtime/cgo") ∧
  (unsafeIcon d pkg = "U" ↔
     observedEdge VendorlessPath cs pkg "unsafe" ∧ isGoPackage pkg = false) ∧
  (cgoIcon d pkg = "C" ↔
     observedEdge VendorlessPath cs pkg "runtime/cgo" ∧
     isGoPackage pkg = false).
Proof.
  intros d.
  assert (flagOf (UsesUnsafe d) pkg = true ↔
          observedEdge VendorlessPath cs pkg "unsafe") as HU.
  { unfold d. rewrite performAll_UsesUnsafe. split; [|auto].
    by intros [?|?]. }
  assert (flagOf (UsesCGO d) pkg = true ↔
          observedEdge VendorlessPath cs pkg "runtime/cgo") as HC.
  { unfold d. rewrite performAll_UsesCGO. split; [|auto].
    by intros [?|?]. }
  split; [done|]. split; [done|]. split.
  - rewrite <- HU. unfold unsafeIcon.
    destruct (flagOf (UsesUnsafe d) pkg), (isGoPackage pkg); simpl;
      split; (done || by intros [? ?]).
  - rewrite <- HC. unfold cgoIcon.
    destruct (flagOf (UsesCGO d) pkg), (isGoPackage pkg); simpl;
      split; (done || by intros [? ?]).
Qed.

(** X3: targets.  A dependency is recorded for a target exactly when it
    was observed under that target and not left out; the dependency
    list holds exactly the packages recorded for some target. *)
Theorem targets_follow_observations VendorlessPath internal cs pkg :
  let d := performAll VendorlessPath internal zeroDeps cs in
  (∀ goos, onOS d pkg goos = true ↔
           observedOn VendorlessPath internal cs pkg goos) ∧
  (pkg ∈ Deps d ↔ ∃ goos, onOS d pkg goos = true).
Proof.
  intros d.
  assert (∀ goos, onOS d pkg goos = true ↔
                  observedOn VendorlessPath internal cs pkg goos) as Hon.
  { intros goos. unfold d. rewrite performAll_onOS. split; [|auto].
    by intros [?|?]. }
  split; [done|].
  destruct (performAll_Deps VendorlessPath internal zeroDeps cs) as [_ He];
    [constructor|].
  fold d in He. rewrite He. split.
  - intros [Hin|(p & g & Hin & Hp & Hi)]; [by apply elem_of_nil in Hin|].
    exists g. apply Hon. by exists p.
  - intros (g & (p & Hin & Hp & Hi)%Hon). right. by exists p, g.
Qed.

(** X4: internal packages.  Without the flag -internal no internal
    package is ever listed, whatever was observed; with it every
    observed package is listed. *)
Theorem internal_packages_listed_on_request VendorlessPath cs :
  (∀ pkg, pkg ∈ Deps (performAll VendorlessPath false zeroDeps cs) →
          isInternalPackage pkg = false) ∧
  (∀ p goos, CallAddDep p goos ∈ cs →
             VendorlessPath p ∈ Deps (performAll VendorlessPath true zeroDeps cs)).
Proof.
  split.
  - intros pkg Hin.
    destruct (performAll_Deps VendorlessPath false zeroDeps cs) as [_ He];
      [constructor|].
    apply He in Hin as [Hin|(p & g & _ & _ & Hi)];
      [by apply elem_of_nil in Hin|done].
  - intros p goos Hin.
    destruct (performAll_Deps VendorlessPath true zeroDeps cs) as [_ He];
      [constructor|].
    apply He. right. by exists p, goos.
Qed.

(** X5: idempotence and independence of the two operations.  A repeated
    call changes nothing, and a call of one operation commutes with a
    call of the other. *)
Theorem AddEdge_AddDep_idempotent VendorlessPath internal d from to pkg goos :
  AddEdge VendorlessPath (AddEdge VendorlessPath d from to) from to =
    AddEdge VendorlessPath d from to ∧
  AddDep VendorlessPath internal
    (AddDep VendorlessPath internal d pkg goos) pkg goos =
    AddDep VendorlessPath internal d pkg goos ∧
  AddDep VendorlessPath internal (AddEdge VendorlessPath d from to) pkg goos =
    AddEdge VendorlessPath (AddDep VendorlessPath internal d pkg goos) from to.
Proof.
  split; [|split].
  - remember (AddEdge VendorlessPath d from to) as d1 eqn:E1.
    assert (stringsContains (importersOf d1 (VendorlessPath to))
              (VendorlessPath from) = true) as Hc.
    { apply stringsContains_elem. rewrite E1, AddEdge_importers.
      destruct (decide _); [|done].
      destruct (stringsContains _ _) eqn:E; [by apply stringsContains_elem|].
      apply elem_of_app. right. by left. }
    assert ((if String.eqb (VendorlessPath to) "unsafe"
             then <[VendorlessPath from := true]> (UsesUnsafe d1)
             else UsesUnsafe d1) = UsesUnsafe d1) as HU.
    { rewrite E1. unfold AddEdge. simpl.
      destruct (String.eqb _ "unsafe"); [apply insert_insert_eq|done]. }
    assert ((if String.eqb (VendorlessPath to) "runtime/cgo"
             then <[VendorlessPath from := true]> (UsesCGO d1)
             else UsesCGO d1) = UsesCGO d1) as HC.
    { rewrite E1. unfold AddEdge. simpl.
      destruct (String.eqb _ "runtime/cgo"); [apply insert_insert_eq|done]. }
    unfold AddEdge at 1. rewrite Hc, HU, HC. simpl. by destruct d1.
  - remember (AddDep VendorlessPath internal d pkg goos) as d1 eqn:E1.
    destruct (negb internal && isInternalPackage (VendorlessPath pkg)) eqn:Hi.
    { unfold AddDep. by rewrite Hi. }
    assert (stringsContains (Deps d1) (VendorlessPath pkg) = true) as Hc.
    { apply stringsContains_elem. rewrite E1, AddDep_Deps, Hi.
      destruct (stringsContains _ _) eqn:E; [by apply stringsContains_elem|].
      apply elem_of_app. right. by left. }
    assert (<[(VendorlessPath pkg, goos) := true]> (DepOnOS d1) = DepOnOS d1)
      as HO.
    { rewrite E1. unfold AddDep. rewrite Hi. simpl. apply insert_insert_eq. }
    unfold AddDep at 1. rewrite Hi, Hc, HO. simpl. by destruct d1.
  - unfold AddDep, AddEdge. simpl.
    by destruct (negb internal && isInternalPackage (VendorlessPath pkg)).
Qed.





(** X6: the sort is determined by the comparators.  Both comparators
    the program hands to the sort package are strict total orders, so
    the sorted slice is the only permutation of the input that meets the
    contract of the sort: the output does not depend on the sorting
    algorithm nor on the order of the input. *)
Theorem sort_results_determined :
  Sorting.StrictTotal lessDeps ∧ Sorting.StrictTotal Bytes.lt ∧
  (∀ l, sortDeps l ≡ₚ l ∧ Sorting.sortedBy lessDeps (sortDeps l)) ∧
  (∀ l l', l' ≡ₚ l → Sorting.sortedBy lessDeps l' → l' = sortDeps l) ∧
  (∀ l l', l' ≡ₚ l → Sorting.sortedBy Bytes.lt l' → l' = sortStrings l).
Proof.
  split; [apply lessDeps_strict|]. split; [apply BytesFacts.lt_strict|].
  split; [|split].
  - intros l. split; [apply sortDeps_perm|].
    apply SortingFacts.sortBy_sorted, lessDeps_strict.
  - intros l l' Hp Hs. symmetry.
    by apply SortingFacts.sortBy_unique; [apply lessDeps_strict|..].
  - intros l l' Hp Hs. symmetry.
    by apply SortingFacts.sortBy_unique; [apply BytesFacts.lt_strict|..].
Qed.

Lemma preferredIn_absent from pref :
  pref ∉ from → preferredIn from pref = "".
Proof.
  intros Hn. unfold preferredIn.
  destruct (negb (String.eqb pref "")); [|done].
  by rewrite (proj2 (stringsContains_false from pref) Hn).
Qed.

(** X7: a stale hint is ignored.  When the hint of the previous snapshot
    is not among the importers, Why answers as it does without any
    hint. *)
Theorem Why_ignores_stale_hint d pkg preferredWhy :
  default "" (preferredWhy !! pkg) ∉ importersOf d pkg →
  (Why d pkg preferredWhy).1 = (Why d pkg ∅).1.
Proof.
  intros Hn. rewrite !Why_text, lookup_empty. unfold whyText.
  rewrite (preferredIn_absent _ _ Hn).
  by replace (preferredIn (importersOf d pkg) (default "" None)) with "".
Qed.

Lemma Why_ignores_stale_hint_witness :
  (Why (Sample.run Sample.twoTargets) "encoding/binary"
     {["encoding/binary" := "encoding/gone"]}).1 = "from example.com/y+" ∧
  (Why (Sample.run Sample.twoTargets) "encoding/binary"
     {["encoding/binary" := "encoding/gone"]}).1 =
  (Why (Sample.run Sample.twoTargets) "encoding/binary" ∅).1.
Proof.
  split; [vm_compute; reflexivity|].
  apply (Why_ignores_stale_hint (Sample.run Sample.twoTargets)
           "encoding/binary" {["encoding/binary" := "encoding/gone"]}).
  apply stringsContains_false. vm_compute. reflexivity.
Defined.

(** X8: Why only reorders.  The accumulator a call of Why leaves behind
    has the same dependency list and flags and, for every package, the
    same importers up to their order; asking again, for the same or
    another package, gives the answer the first accumulator gives. *)
Theorem Why_only_reorders d pkg preferredWhy :
  let d' := (Why d pkg preferredWhy).2 in
  Deps d' = Deps d ∧ DepOnOS d' = DepOnOS d ∧
  UsesUnsafe d' = UsesUnsafe d ∧ UsesCGO d' = UsesCGO d ∧
  (∀ q, importersOf d' q ≡ₚ importersOf d q) ∧
  (∀ q, q ≠ pkg → importersOf d' q = importersOf d q) ∧
  (∀ q hints, (Why d' q hints).1 = (Why d q hints).1).
Proof.
  intros d'.
  assert (Deps d' = Deps d ∧ DepOnOS d' = DepOnOS d ∧
          UsesUnsafe d' = UsesUnsafe d ∧ UsesCGO d' = UsesCGO d ∧
          ∀ q, q ≠ pkg → importersOf d' q = importersOf d q)
    as (HD & HO & HU & HC & Hq).
  { unfold d', Why. destruct (length (importersOf d pkg) =? 0); [done|].
    destruct (String.eqb _ ""); simpl; [|done].
    repeat (split; [done|]). intros q Hne. unfold importersOf. simpl.
    by rewrite lookup_insert_ne. }
  pose proof (Why_sameState d pkg preferredWhy) as Hs. fold d' in Hs.
  repeat (split; [done|]). split; [|split; [done|]].
  - intros q. symmetry. apply (same_DepTo _ _ Hs).
  - intros q hints. rewrite !Why_text. symmetry.
    apply whyText_perm, (same_DepTo _ _ Hs).
Qed.

(** ** When the rendering panics *)

Lemma writeMarkers_None d pkg geese : ∀ osBuf,
  writeMarkers d pkg geese osBuf = None ↔
  "" ∈ geese ∧ onOS d pkg "" = true.
Proof.
  induction geese as [|goos rest IH]; intros osBuf; simpl.
  - split; [done|]. by intros [?%elem_of_nil _].
  - destruct (onOS d pkg goos) eqn:Hon.
    + destruct goos as [|c tl].
      * split; [|done]. intros _. split; [by left|done].
      * rewrite IH. split; [intros [? ?]; split; [by right|done]|].
        intros [[[=]|?]%elem_of_cons ?]. done.
    + rewrite IH. split; [intros [? ?]; split; [by right|done]|].
      intros [[->|?]%elem_of_cons Ht]; [congruence|done].
Qed.

Lemma lineOf_None geese preferredWhy d pkg :
  lineOf geese preferredWhy d pkg = None ↔
  "" ∈ geese ∧ onOS d pkg "" = true.
Proof.
  rewrite <- (writeMarkers_None d pkg geese ""). unfold lineOf, osMarkers.
  by destruct (writeMarkers d pkg geese "").
Qed.

(** X9: the one way the rendering panics.  The rendering yields a
    snapshot unless the list of targets holds an empty name under which
    some listed dependency was recorded; then the index expression
    goos[0] panics and nothing is rendered. *)
Theorem render_panics_on_empty_target pkg geese preferredWhy d :
  render pkg geese preferredWhy d = None ↔
  ∃ dep, dep ∈ Deps d ∧ "" ∈ geese ∧ onOS d dep "" = true.
Proof.
  assert (render pkg geese preferredWhy d = None ↔
          mapM (lineOf geese preferredWhy d) (sortDeps (Deps d)) = None) as ->.
  { rewrite <- renderLines_lines. unfold render.
    by destruct (renderLines geese preferredWhy d) as [[ls d']|]. }
  setoid_rewrite <- (sortDeps_perm (Deps d)) at 2.
  induction (sortDeps (Deps d)) as [|p l IH]; cbn [mapM].
  - split; [done|]. by intros (dep & ?%elem_of_nil & _).
  - destruct (lineOf geese preferredWhy d p) as [line|] eqn:E; simpl.
    + destruct (mapM (lineOf geese preferredWhy d) l) as [ls|]; simpl.
      * split; [done|]. intros (dep & [->|Hin]%elem_of_cons & H).
        -- apply (lineOf_None geese preferredWhy) in H. congruence.
        -- assert (Some ls = None) as Hn by (apply IH; eauto). done.
      * split; [|done]. intros _.
        destruct (proj1 IH eq_refl) as (dep & Hin & H).
        exists dep. split; [by right|done].
    + split; [|done]. intros _. exists p. split; [by left|].
      by apply lineOf_None in E.
Qed.

(** ** Reading a snapshot back: bytes *)

Lemma val_byte n : (n < 256)%N → Bytes.val (Utf8.byte n) = n.
Proof. apply N_ascii_embedding. Qed.

Lemma plainByte_text c : plainByte c = true → textByte c = true.
Proof.
  unfold plainByte, textByte, Bytes.inRange.
  rewrite !andb_true_iff, !N.leb_le. lia.
Qed.

Lemma textByte_ascii c : textByte c = true → (Bytes.val c < 128)%N.
Proof.
  unfold textByte, Bytes.inRange. rewrite !andb_true_iff, !N.leb_le. lia.
Qed.

Lemma plainByte_not_space c : plainByte c = true → spaceByte c = false.
Proof.
  unfold plainByte, spaceByte, Bytes.inRange.
  rewrite !andb_true_iff, !N.leb_le. intros [H1 H2].
  apply orb_false_iff. split.
  - apply andb_false_iff. right. apply N.leb_gt. lia.
  - apply N.eqb_neq. lia.
Qed.

Lemma allBytes_impl (f g : ascii → bool) s :
  (∀ c, f c = true → g c = true) → allBytes f s = true → allBytes g s = true.
Proof.
  intros Hfg. induction s as [|c s IH]; simpl; [done|].
  rewrite !andb_true_iff. intros [? ?]. auto.
Qed.

Lemma allBytes_app f s t :
  allBytes f (s +:+ t) = allBytes f s && allBytes f t.
Proof.
  induction s as [|c s IH]; [done|].
  change (f c && allBytes f (s +:+ t) = f c && allBytes f s && allBytes f t).
  by rewrite IH, andb_assoc.
Qed.

Lemma allBytes_spaces n : allBytes textByte (Text.spaces n) = true.
Proof. induction n as [|n IH]; [done|]. simpl. by rewrite IH. Qed.

(** ** Reading a snapshot back: tokens *)

Lemma spaceWidth_ascii c rest :
  (Bytes.val c < 128)%N →
  Utf8.spaceWidth (String c rest) = if spaceByte c then 1 else 0.
Proof.
  intros Hc. unfold Utf8.spaceWidth, spaceByte.
  destruct (Bytes.inRange 9 13 c || (Bytes.val c =? 32)%N); [done|].
  destruct (N.eqb_spec (Bytes.val c) 0xC2) as [E|_]; [lia|].
  destruct rest as [|b1 [|b2 rest]]; try done.
  destruct (N.eqb_spec (Bytes.val c) 0xE1) as [E|_]; [lia|].
  destruct (N.eqb_spec (Bytes.val c) 0xE2) as [E|_]; [lia|].
  destruct (N.eqb_spec (Bytes.val c) 0xE3) as [E|_]; [lia|]. done.
Qed.

Lemma markSpace_cons c t :
  Text.markSpace 0 (String c t) =
  match Utf8.spaceWidth (String c t) with
  | O => Some c :: Text.markSpace 0 t
  | S k => None :: Text.markSpace k t
  end.
Proof. done. Qed.

Lemma markSpace_ascii s1 s2 :
  allBytes textByte s1 = true →
  Text.markSpace 0 (s1 +:+ s2) = marks s1 ++ Text.markSpace 0 s2.
Proof.
  induction s1 as [|c s1 IH]; [done|].
  intros Hall. change (textByte c && allBytes textByte s1 = true) in Hall.
  apply andb_true_iff in Hall as [Hc Hs].
  change (Text.markSpace 0 (String c (s1 +:+ s2)) =
          (if spaceByte c then None else Some c) ::
            (marks s1 ++ Text.markSpace 0 s2)).
  rewrite markSpace_cons, (spaceWidth_ascii _ _ (textByte_ascii _ Hc)).
  destruct (spaceByte c); by rewrite IH.
Qed.

Lemma Fields_marks s :
  allBytes textByte s = true → Text.Fields s = Text.runs (marks s).
Proof.
  intros Hs. unfold Text.Fields.
  rewrite <- (append_nil_r s) at 1.
  rewrite (markSpace_ascii _ _ Hs). simpl. by rewrite app_nil_r.
Qed.

Lemma runs_Some_nonempty c l : Text.runs (Some c :: l) ≠ [].
Proof.
  simpl. destruct l as [|[c'|] l]; [done| |done].
  by destruct (Text.runs (Some c' :: l)).
Qed.

Lemma runs_app_None l1 l2 :
  Text.runs (l1 ++ None :: l2) = Text.runs l1 ++ Text.runs l2.
Proof.
  induction l1 as [|[c|] l1 IH]; [done| |done].
  destruct l1 as [|[c'|] l1].
  - done.
  - change (Text.runs ((Some c :: Some c' :: l1) ++ None :: l2))
      with (match Text.runs ((Some c' :: l1) ++ None :: l2) with
            | w :: ws => String c w :: ws
            | [] => [String c EmptyString]
            end).
    rewrite IH.
    change (Text.runs (Some c :: Some c' :: l1))
      with (match Text.runs (Some c' :: l1) with
            | w :: ws => String c w :: ws
            | [] => [String c EmptyString]
            end).
    pose proof (runs_Some_nonempty c' l1).
    by destruct (Text.runs (Some c' :: l1)).
  - change (Text.runs ((Some c :: None :: l1) ++ None :: l2))
      with (String c EmptyString :: Text.runs ((None :: l1) ++ None :: l2)).
    by rewrite IH.
Qed.

Lemma marks_app s t : marks (s +:+ t) = marks s ++ marks t.
Proof.
  induction s as [|c s IH]; [done|].
  change (marks (String c (s +:+ t)) = marks (String c s) ++ marks t).
  simpl. by rewrite IH.
Qed.

Lemma marks_plain_cons c s :
  plainByte c = true → marks (String c s) = Some c :: marks s.
Proof. intros Hc. simpl. by rewrite (plainByte_not_space _ Hc). Qed.

Lemma runs_marks_plain_cons s : ∀ c,
  allBytes plainByte (String c s) = true →
  Text.runs (marks (String c s)) = [String c s].
Proof.
  induction s as [|c' s IH]; intros c Hall.
  - change (plainByte c && true = true) in Hall.
    apply andb_true_iff in Hall as [Hc _].
    by rewrite (marks_plain_cons _ _ Hc).
  - change (plainByte c && allBytes plainByte (String c' s) = true) in Hall.
    apply andb_true_iff in Hall as [Hc Hs].
    specialize (IH c' Hs).
    assert (plainByte c' = true) as Hc'.
    { change (plainByte c' && allBytes plainByte s = true) in Hs.
      by apply andb_true_iff in Hs as [? _]. }
    rewrite (marks_plain_cons _ _ Hc). rewrite (marks_plain_cons _ _ Hc') in *.
    change (Text.runs (Some c :: Some c' :: marks s))
      with (match Text.runs (Some c' :: marks s) with
            | w :: ws => String c w :: ws
            | [] => [String c EmptyString]
            end).
    by rewrite IH.
Qed.

Lemma runs_marks_plain s :
  plainName s = true → Text.runs (marks s) = [s].
Proof.
  unfold plainName. intros [Hne Hall]%andb_true_iff.
  destruct s as [|c s]; [done|]. by apply runs_marks_plain_cons.
Qed.

Lemma markSpace_space s :
  Text.markSpace 0 (String " " s) = None :: Text.markSpace 0 s.
Proof. done. Qed.

Lemma Fields_space_l s : Text.Fields (" " +:+ s) = Text.Fields s.
Proof. done. Qed.

Lemma Fields_spaces_l n s : Text.Fields (Text.spaces n +:+ s) = Text.Fields s.
Proof.
  induction n as [|n IH]; [done|].
  change (Text.Fields (" " +:+ (Text.spaces n +:+ s)) = Text.Fields s).
  by rewrite Fields_space_l.
Qed.

Lemma Fields_space_app s1 s2 :
  allBytes textByte s1 = true →
  Text.Fields (s1 +:+ " " +:+ s2) = Text.Fields s1 ++ Text.Fields s2.
Proof.
  intros Hs. rewrite (Fields_marks _ Hs). unfold Text.Fields.
  rewrite (markSpace_ascii _ _ Hs).
  change (" " +:+ s2) with (String " " s2).
  by rewrite markSpace_space, runs_app_None.
Qed.

Lemma marks_spaces n : marks (Text.spaces n) = replicate n None.
Proof. induction n as [|n IH]; [done|]. simpl. by rewrite IH. Qed.

Lemma runs_app_Nones l n : Text.runs (l ++ replicate n None) = Text.runs l.
Proof.
  destruct n as [|n]; [by rewrite app_nil_r|].
  simpl. rewrite runs_app_None.
  assert (Text.runs (replicate n (@None ascii)) = []) as ->.
  { induction n as [|n IH]; [done|]. done. }
  by rewrite app_nil_r.
Qed.

Lemma plainName_text s : plainName s = true → allBytes textByte s = true.
Proof.
  unfold plainName. intros [_ H]%andb_true_iff.
  eapply allBytes_impl; [apply plainByte_text|done].
Qed.

Lemma Fields_plain s : plainName s = true → Text.Fields s = [s].
Proof.
  intros Hs. rewrite (Fields_marks _ (plainName_text _ Hs)).
  by apply runs_marks_plain.
Qed.

Lemma Fields_plain_spaces s n :
  plainName s = true → Text.Fields (s +:+ Text.spaces n) = [s].
Proof.
  intros Hs. rewrite Fields_marks.
  - rewrite marks_app, marks_spaces, runs_app_Nones.
    by apply runs_marks_plain.
  - by rewrite allBytes_app, (plainName_text _ Hs), allBytes_spaces.
Qed.

(** ** Reading a snapshot back: widths *)

Lemma runeWidth_ascii c rest :
  (Bytes.val c < 128)%N → Utf8.runeWidth (String c rest) = 1.
Proof.
  intros Hc. unfold Utf8.runeWidth.
  by destruct (N.ltb_spec (Bytes.val c) 0x80); [|lia].
Qed.

Lemma runeCountFrom_cons c t :
  Utf8.runeCountFrom 0 (String c t) =
  S (Utf8.runeCountFrom (pred (Utf8.runeWidth (String c t))) t).
Proof. done. Qed.

Lemma RuneCount_text s :
  allBytes textByte s = true → Utf8.RuneCount s = String.length s.
Proof.
  unfold Utf8.RuneCount. induction s as [|c s IH]; [done|].
  intros Hall. change (textByte c && allBytes textByte s = true) in Hall.
  apply andb_true_iff in Hall as [Hc Hs].
  rewrite runeCountFrom_cons, (runeWidth_ascii _ _ (textByte_ascii _ Hc)).
  simpl. by rewrite IH.
Qed.

Lemma length_spaces n : String.length (Text.spaces n) = n.
Proof. induction n as [|n IH]; [done|]. simpl. by rewrite IH. Qed.

Lemma formatLine_body os U C pkg why :
  formatLine os U C pkg why = lineBody os U C pkg why +:+ Text.nl.
Proof. unfold formatLine, lineBody. by rewrite !append_assoc. Qed.

(** ** Reading a snapshot back: one line *)

Lemma parseLine_skips m line :
  "from" ∉ Text.Fields line → parseLine m line = Some m.
Proof.
  intros Hno.
  destruct (parseLine_cases m line)
    as [[_ H]|[(R & F & H)|[(B & F & _ & H)|(B & dep & src & after & F & _)]]];
    try done.
  destruct Hno. rewrite F. apply elem_of_app. right. right. by left.
Qed.

Lemma parseLine_contributes m line before dep src after :
  Text.Fields line = before ++ [dep; "from"; src] ++ after →
  "from" ∉ before → dep ≠ "from" →
  parseLine m line = Some (<[dep := Bytes.TrimRight src "+"]> m).
Proof.
  intros F Hb Hd.
  assert ("from" ∉ before ++ [dep]) as Hbd.
  { intros [?|Hin%list_elem_of_singleton]%elem_of_app; congruence. }
  destruct (parseLine_cases m line)
    as [[Hno _]|[(R & F' & _)|[(B & F' & HB & _)
       |(B & dep' & src' & after' & F' & HB & Hd' & H)]]].
  - destruct Hno. rewrite F. apply elem_of_app. right. right. by left.
  - rewrite F in F'. destruct before; simpl in F'; [congruence|].
    injection F' as -> _. destruct Hb. by left.
  - rewrite F in F'.
    destruct (from_first_unique (before ++ [dep]) B (src :: after) [])
      as [_ [=]]; [done|done|].
    by rewrite <- app_assoc.
  - rewrite F in F'.
    assert ("from" ∉ B ++ [dep']) as HBd.
    { intros [?|Hin%list_elem_of_singleton]%elem_of_app; congruence. }
    destruct (from_first_unique (before ++ [dep]) (B ++ [dep'])
                (src :: after) (src' :: after')) as [E1 [= -> _]];
      [done|done|by rewrite <- !app_assoc|].
    apply app_inj_tail in E1 as [_ ->]. done.
Qed.

Lemma padLeft_text n os :
  allBytes textByte os = true → allBytes textByte (Text.padLeft n os) = true.
Proof.
  intros H. unfold Text.padLeft. by rewrite allBytes_app, allBytes_spaces, H.
Qed.

(** The tokens of a line. *)
Lemma Fields_lineBody os U C pkg why :
  allBytes textByte os = true → allBytes textByte (U +:+ C) = true →
  plainName pkg = true →
  Text.Fields (lineBody os U C pkg why) =
  Text.Fields os ++ Text.Fields (U +:+ C) ++ [pkg] ++ Text.Fields why.
Proof.
  intros Hos HUC Hpkg. unfold lineBody.
  rewrite Fields_space_l.
  rewrite (Fields_space_app _ _ (padLeft_text 3 os Hos)).
  unfold Text.padLeft at 1. rewrite Fields_spaces_l. f_equal.
  rewrite <- (append_assoc U C). rewrite (Fields_space_app _ _ HUC). f_equal.
  rewrite Fields_space_app.
  - unfold Text.padRight. by rewrite (Fields_plain_spaces _ _ Hpkg).
  - unfold Text.padRight.
    by rewrite allBytes_app, (plainName_text _ Hpkg), allBytes_spaces.
Qed.

(** ** Reading a snapshot back: the attribution text *)

Lemma whyText_chosen from pref :
  whyText from pref =
  if length from =? 0 then ""
  else "from " +:+ chosenWhy from pref +:+ (if 1 <? length from then "+" else "").
Proof. done. Qed.

Lemma chosenWhy_in from pref : from ≠ [] → chosenWhy from pref ∈ from.
Proof.
  intros Hne. unfold chosenWhy, preferredIn.
  destruct (negb (String.eqb pref "")); simpl.
  - destruct (stringsContains from pref) eqn:Hc.
    + destruct (String.eqb_spec pref "") as [->|_];
        [|by apply stringsContains_elem].
      by apply (SortingFacts.sortBy_head_least Bytes.lt BytesFacts.lt_strict "").
    + simpl.
      by apply (SortingFacts.sortBy_head_least Bytes.lt BytesFacts.lt_strict "").
  - by apply (SortingFacts.sortBy_head_least Bytes.lt BytesFacts.lt_strict "").
Qed.

Lemma chosenWhy_fixed from c :
  c ∈ from → c ≠ "" → chosenWhy from c = c.
Proof.
  intros Hin Hne. unfold chosenWhy, preferredIn.
  destruct (String.eqb_spec c "") as [|_]; [done|]. simpl.
  rewrite (proj2 (stringsContains_elem from c) Hin).
  by destruct (String.eqb_spec c "").
Qed.

Lemma TrimRight_cons c s :
  Bytes.TrimRight (String c s) "+" =
  match Bytes.TrimRight s "+" with
  | EmptyString => if Bytes.inCutset "+" c then "" else String c ""
  | t => String c t
  end.
Proof. done. Qed.

Lemma TrimRight_app_plus s :
  Bytes.TrimRight (s +:+ "+") "+" = Bytes.TrimRight s "+".
Proof.
  induction s as [|c s IH]; [done|].
  change (String c s +:+ "+") with (String c (s +:+ "+")).
  by rewrite !TrimRight_cons, IH.
Qed.

(** ** Reading a snapshot back: the marker field *)

Lemma ToUpper_plain c :
  plainByte c = true →
  upperByte (Utf8.byte (Utf8.ToUpper (Bytes.val c))) = true.
Proof.
  intros Hc. unfold plainByte, Bytes.inRange in Hc.
  apply andb_true_iff in Hc as [H1%N.leb_le H2%N.leb_le].
  assert (Utf8.ToUpper (Bytes.val c) < 256 ∧
          0x21 ≤ Utf8.ToUpper (Bytes.val c) ≤ 0x7E ∧
          ¬ (0x61 ≤ Utf8.ToUpper (Bytes.val c) ≤ 0x7A))%N as (Hb & Hr & Hl).
  { unfold Utf8.ToUpper.
    repeat match goal with
           | |- context [(?a <=? ?b)%N] => destruct (N.leb_spec a b)
           | |- context [(?a =? ?b)%N] => destruct (N.eqb_spec a b)
           end; simpl; lia. }
  unfold upperByte, plainByte, Bytes.inRange. rewrite (val_byte _ Hb).
  apply andb_true_iff. split.
  - apply andb_true_iff. split; apply N.leb_le; lia.
  - apply negb_true_iff, andb_false_iff.
    destruct (N.leb_spec 0x61 (Utf8.ToUpper (Bytes.val c))); [|by left].
    right. apply N.leb_gt. lia.
Qed.

Lemma upperByte_plain c : upperByte c = true → plainByte c = true.
Proof. unfold upperByte. by intros [? _]%andb_true_iff. Qed.

Lemma markers_upper (l : list string) :
  Forall (λ goos, startsPlain goos = true) l →
  allBytes upperByte (joinAll (upperInitial <$> l)) = true.
Proof.
  induction 1 as [|goos l Hg _ IH]; [done|].
  rewrite fmap_cons. cbn [joinAll]. rewrite allBytes_app, IH, andb_true_r.
  destruct goos as [|c tl]; [done|]. simpl. simpl in Hg.
  by rewrite (ToUpper_plain _ Hg).
Qed.

Lemma startsPlain_asciiName goos : startsPlain goos = true → asciiName goos.
Proof.
  destruct goos as [|c tl]; [done|]. simpl. intros Hc. exists c, tl.
  split; [done|]. by apply textByte_ascii, plainByte_text.
Qed.

Lemma osMarkers_plain d geese pkg :
  Forall (λ goos, startsPlain goos = true) geese →
  ∃ os, osMarkers d geese pkg = Some os ∧
        allBytes upperByte os = true ∧ String.length os ≤ length geese.
Proof.
  intros Hall.
  assert (Forall asciiName geese) as Hascii
    by (eapply Forall_impl; [exact Hall|apply startsPlain_asciiName]).
  rewrite (osMarkers_ascii d geese pkg Hascii).
  set (seen := filter (λ goos, onOS d pkg goos = true) geese).
  assert (Forall (λ goos, startsPlain goos = true) seen) as Hseen.
  { apply Forall_forall. intros goos [_ Hin]%list_elem_of_filter.
    by eapply Forall_forall in Hall. }
  eexists. split; [done|].
  destruct (length seen =? length geese); [split; [done|simpl; lia]|].
  split; [by apply markers_upper|].
  rewrite markers_length.
  - apply length_filter.
  - eapply Forall_impl; [exact Hseen|apply startsPlain_asciiName].
Qed.

Lemma Fields_upper os :
  allBytes upperByte os = true → "from" ∉ Text.Fields os.
Proof.
  intros Hos. destruct (String.eqb_spec os "") as [->|Hne].
  - apply not_elem_of_nil.
  - rewrite Fields_plain.
    + intros E%list_elem_of_singleton. subst os. vm_compute in Hos. done.
    + unfold plainName. apply String.eqb_neq in Hne. rewrite Hne. simpl.
      eapply allBytes_impl; [apply upperByte_plain|done].
Qed.

(** ** Reading a snapshot back: the line of a dependency *)

Lemma length_lineBody os U C pkg why :
  allBytes textByte os = true → allBytes textByte pkg = true →
  String.length (lineBody os U C pkg why) ≤
  String.length os + String.length U + String.length C +
  String.length pkg + String.length why + 67.
Proof.
  intros Hos Hpkg. unfold lineBody, Text.padLeft, Text.padRight.
  rewrite !length_append, !length_spaces, (RuneCount_text _ Hos),
    (RuneCount_text _ Hpkg).
  simpl. lia.
Qed.

Lemma icons_cases d pkg :
  (unsafeIcon d pkg = "U" ∨ unsafeIcon d pkg = " ") ∧
  (cgoIcon d pkg = "C" ∨ cgoIcon d pkg = " ").
Proof.
  unfold unsafeIcon, cgoIcon.
  by destruct (flagOf _ _ && _), (flagOf _ _ && _); auto.
Qed.

Lemma goodName_spec s :
  goodName s = true →
  plainName s = true ∧ (N.of_nat (String.length s) < 20000)%N.
Proof.
  unfold goodName, shortName. intros [? ?%N.ltb_lt]%andb_true_iff. done.
Qed.

Lemma plainName_app_plus c (b : bool) :
  plainName c = true → plainName (c +:+ (if b then "+" else "")) = true.
Proof.
  intros Hc. destruct b; [|by rewrite append_nil_r].
  unfold plainName in *. apply andb_true_iff in Hc as [Hne Hall].
  apply andb_true_iff. split.
  - by destruct c.
  - by rewrite allBytes_app, Hall.
Qed.

Lemma parse_dep_line m geese preferredWhy d dep :
  Forall (λ goos, startsPlain goos = true) geese →
  goodDep d dep = true →
  let from := importersOf d dep in
  let pref := default "" (preferredWhy !! dep) in
  ∃ body,
    lineOf geese preferredWhy d dep = Some (body +:+ Text.nl) ∧
    allBytes textByte body = true ∧
    String.length body ≤
      length geese + String.length dep +
      String.length (chosenWhy from pref) + 75 ∧
    parseLine m body =
      Some (if length from =? 0 then m
            else <[dep := chosenWhy from pref]> m).
Proof.
  intros Hgeese Hdep from pref.
  unfold goodDep in Hdep.
  apply andb_true_iff in Hdep as [[Hname Hnf]%andb_true_iff Himp].
  apply goodName_spec in Hname as [Hplain Hshort].
  apply negb_true_iff, String.eqb_neq in Hnf.
  destruct (osMarkers_plain d geese dep Hgeese) as (os & Hos & Hup & Hlen).
  assert (allBytes textByte os = true) as Hostext.
  { eapply allBytes_impl; [|exact Hup].
    intros c Hc. by apply plainByte_text, upperByte_plain. }
  set (U := unsafeIcon d dep). set (C := cgoIcon d dep).
  set (why := whyText from pref).
  exists (lineBody os U C dep why).
  assert (allBytes textByte (U +:+ C) = true ∧
          ("from" ∉ Text.Fields (U +:+ C)) ∧
          String.length U + String.length C = 2) as (HUC & HUCf & HUCl).
  { destruct (icons_cases d dep) as [[HU|HU] [HC|HC]]; unfold U, C;
      rewrite HU, HC; (split; [done|split; [|done]]); vm_compute;
      intros Hin; repeat (apply elem_of_cons in Hin as [Hin|Hin]; [done|]);
      by apply elem_of_nil in Hin. }
  assert (from ≠ [] →
          plainName (chosenWhy from pref) = true ∧
          Bytes.TrimRight (chosenWhy from pref) "+" = chosenWhy from pref)
    as Hchosen.
  { intros Hne. pose proof (chosenWhy_in from pref Hne) as Hin.
    rewrite forallb_forall in Himp.
    apply list_elem_of_In, Himp in Hin. unfold goodImporter in Hin.
    apply andb_true_iff in Hin as [[? _]%goodName_spec ?%String.eqb_eq]. done. }
  assert (allBytes textByte why = true ∧
          String.length why ≤ String.length (chosenWhy from pref) + 6 ∧
          Text.Fields why =
            if length from =? 0 then []
            else ["from"; chosenWhy from pref +:+
                            (if 1 <? length from then "+" else "")])
    as (Hwhytext & Hwhylen & Hwhy).
  { unfold why. rewrite whyText_chosen.
    destruct (length from =? 0) eqn:E0; [split; [done|split; [simpl; lia|done]]|].
    assert (from ≠ []) as Hne by (intros E; by rewrite E in E0).
    destruct (Hchosen Hne) as [Hc _].
    pose proof (plainName_app_plus _ (1 <? length from) Hc) as Hcp.
    split; [|split].
    - change ("from " +:+ ?x) with ("from" +:+ " " +:+ x).
      by rewrite (allBytes_app _ "from"), (allBytes_app _ " "),
        (plainName_text _ Hcp).
    - rewrite !length_append. destruct (1 <? length from); simpl; lia.
    - change ("from " +:+ ?x) with ("from" +:+ " " +:+ x).
      rewrite Fields_space_app by done. by rewrite (Fields_plain _ Hcp). }
  split; [|split; [|split]].
  - unfold lineOf. rewrite Hos. simpl. by rewrite formatLine_body.
  - unfold lineBody, Text.padLeft, Text.padRight.
    rewrite !allBytes_app, !allBytes_spaces, Hostext, Hwhytext,
      (plainName_text _ Hplain).
    destruct (icons_cases d dep) as [[HU|HU] [HC|HC]]; unfold U, C;
      by rewrite HU, HC.
  - pose proof (length_lineBody os U C dep why Hostext
                  (plainName_text _ Hplain)). lia.
  - pose proof (Fields_lineBody os U C dep why Hostext HUC Hplain) as HF.
    rewrite Hwhy in HF.
    destruct (length from =? 0) eqn:E0.
    + apply parseLine_skips. rewrite HF, app_nil_r.
      intros [Hin|[Hin|Hin%list_elem_of_singleton]%elem_of_app]%elem_of_app;
        [by apply (Fields_upper os)|done|done].
    + assert (from ≠ []) as Hne by (intros E; by rewrite E in E0).
      destruct (Hchosen Hne) as [Hc Htrim].
      rewrite (parseLine_contributes m _
                 (Text.Fields os ++ Text.Fields (U +:+ C)) dep
                 (chosenWhy from pref +:+ (if 1 <? length from then "+" else ""))
                 []).
      * f_equal. f_equal.
        destruct (1 <? length from);
          [by rewrite TrimRight_app_plus|by rewrite append_nil_r].
      * rewrite HF. by rewrite <- !app_assoc.
      * intros [Hin|Hin]%elem_of_app; [by apply (Fields_upper os)|done].
      * done.
Qed.

(** ** Reading a snapshot back: the scanner *)

Lemma textByte_not_newline c :
  textByte c = true → Ascii.eqb c Text.newline = false.
Proof.
  intros Hc. apply Ascii.eqb_neq. intros ->. vm_compute in Hc. done.
Qed.

Lemma textByte_not_CR c :
  textByte c = true → Ascii.eqb c (Utf8.byte 13) = false.
Proof.
  intros Hc. apply Ascii.eqb_neq. intros ->. vm_compute in Hc. done.
Qed.

Lemma rawLines_nl t : Text.rawLines (Text.nl +:+ t) = "" :: Text.rawLines t.
Proof. done. Qed.

Lemma rawLines_cons c t :
  Text.rawLines (String c t) =
  if Ascii.eqb c Text.newline then EmptyString :: Text.rawLines t
  else match Text.rawLines t with
       | [] => [String c EmptyString]
       | l :: ls => String c l :: ls
       end.
Proof. done. Qed.

Lemma rawLines_line s t :
  allBytes textByte s = true →
  Text.rawLines (s +:+ Text.nl +:+ t) = s :: Text.rawLines t.
Proof.
  induction s as [|c s IH]; [done|].
  intros Hall. change (textByte c && allBytes textByte s = true) in Hall.
  apply andb_true_iff in Hall as [Hc Hs].
  change (String c s +:+ Text.nl +:+ t) with (String c (s +:+ Text.nl +:+ t)).
  by rewrite rawLines_cons, (textByte_not_newline _ Hc), (IH Hs).
Qed.

Lemma dropCR_cons c c' s :
  Text.dropCR (String c (String c' s)) = String c (Text.dropCR (String c' s)).
Proof. done. Qed.

Lemma dropCR_text s : allBytes textByte s = true → Text.dropCR s = s.
Proof.
  induction s as [|c s IH]; [done|].
  intros Hall. change (textByte c && allBytes textByte s = true) in Hall.
  apply andb_true_iff in Hall as [Hc Hs].
  destruct s as [|c' s].
  - change (Text.dropCR (String c ""))
      with (if Ascii.eqb c (Utf8.byte 13) then "" else String c "").
    by rewrite (textByte_not_CR _ Hc).
  - by rewrite dropCR_cons, (IH Hs).
Qed.

Lemma takeWhile_all {A} (f : A → bool) l :
  Forall (λ x, f x = true) l → Text.takeWhile f l = l.
Proof. induction 1 as [|x l Hx _ IH]; [done|]. simpl. by rewrite Hx, IH. Qed.

Lemma rawLines_joinAll bodies :
  Forall scannable bodies →
  Text.rawLines (joinAll ((λ b, b +:+ Text.nl) <$> bodies)) = bodies.
Proof.
  induction 1 as [|b bodies [Hb _] _ IH]; [done|].
  rewrite fmap_cons. cbn [joinAll]. rewrite append_assoc.
  by rewrite (rawLines_line _ _ Hb), IH.
Qed.

Lemma scanLines_scannable (ls : list string) r :
  Text.rawLines r = ls → Forall scannable ls → Text.scanLines r = ls.
Proof.
  intros E Hall. unfold Text.scanLines. rewrite E.
  rewrite takeWhile_all.
  - clear E. induction Hall as [|b bodies [Hb _] _ IH]; [done|].
    rewrite fmap_cons, IH. by rewrite (dropCR_text _ Hb).
  - eapply Forall_impl; [exact Hall|]. intros b [_ Hlen]. by apply N.ltb_lt.
Qed.

Lemma parseLines_cons m line rest :
  parseLines m (line :: rest) = parseLine m line ≫= λ m', parseLines m' rest.
Proof. done. Qed.

(** The title line and the blank line add no hint. *)
Lemma parse_header m pkg :
  plainName pkg = true →
  parseLine m
    (pkg +:+ " dependencies: (generated by github.com/tailscale/depaware)") =
    Some m.
Proof.
  intros Hp.
  assert (Text.Fields
            (pkg +:+ " dependencies: (generated by github.com/tailscale/depaware)")
          = [pkg; "dependencies:"; "(generated"; "by";
             "github.com/tailscale/depaware)"]) as HF.
  { change (pkg +:+ " dependencies: (generated by github.com/tailscale/depaware)")
      with (pkg +:+ " " +:+
            "dependencies: (generated by github.com/tailscale/depaware)").
    rewrite (Fields_space_app _ _ (plainName_text _ Hp)), (Fields_plain _ Hp).
    done. }
  destruct (parseLine_cases m
              (pkg +:+ " dependencies: (generated by github.com/tailscale/depaware)"))
    as [[_ H]|[(R & F & H)|[(B & F & _ & H)|(B & dep & src & after & F & HB & Hd & _)]]];
    try done.
  rewrite HF in F. exfalso.
  assert ((B ++ [dep; "from"; src] ++ after) !! S (length B) = Some "from")
    as Hl.
  { replace (B ++ [dep; "from"; src] ++ after)
      with ((B ++ [dep]) ++ "from" :: src :: after)
      by by rewrite <- app_assoc.
    apply list_lookup_middle. rewrite length_app. simpl. lia. }
  rewrite <- F in Hl. simpl in Hl.
  remember (length B) as n eqn:En. clear En.
  by do 4 (destruct n as [|n]; [done|]).
Qed.

(** ** Reading a snapshot back: the whole text *)

Lemma chosenWhy_short d dep pref :
  goodDep d dep = true →
  (N.of_nat (String.length (chosenWhy (importersOf d dep) pref)) < 20000)%N.
Proof.
  intros Hdep. destruct (importersOf d dep) as [|w ws] eqn:E.
  - unfold chosenWhy, preferredIn. simpl.
    destruct (negb (String.eqb pref "")); simpl; lia.
  - assert (chosenWhy (w :: ws) pref ∈ w :: ws) as Hin
      by by apply chosenWhy_in.
    unfold goodDep in Hdep. apply andb_true_iff in Hdep as [_ Himp].
    rewrite E, forallb_forall in Himp.
    apply list_elem_of_In, Himp in Hin. unfold goodImporter in Hin.
    by apply andb_true_iff in Hin as [[_ ?]%goodName_spec _].
Qed.

Lemma goodDep_short d dep :
  goodDep d dep = true → (N.of_nat (String.length dep) < 20000)%N.
Proof.
  unfold goodDep. intros [[Hn _]%andb_true_iff _]%andb_true_iff.
  by apply goodName_spec in Hn as [_ ?].
Qed.

Lemma append_nl_inj s : ∀ s', s +:+ Text.nl = s' +:+ Text.nl → s = s'.
Proof.
  induction s as [|c s IH]; intros [|c' s'] E; [done| | |].
  - injection E as _ E. by destruct s'.
  - injection E as _ E. by destruct s.
  - injection E as -> E. f_equal. by apply IH.
Qed.

Lemma dep_lines geese preferredWhy d pkgs lines :
  Forall (λ goos, startsPlain goos = true) geese →
  (N.of_nat (length geese) < 20000)%N →
  Forall (λ dep, goodDep d dep = true) pkgs →
  Forall2 (λ p line, lineOf geese preferredWhy d p = Some line) pkgs lines →
  ∃ bodies,
    lines = (λ b, b +:+ Text.nl) <$> bodies ∧
    Forall scannable bodies ∧
    ∀ m, parseLines m bodies = Some (foldl (recordHint preferredWhy d) m pkgs).
Proof.
  intros Hgeese Hn Hgood HF. induction HF as [|p line pkgs lines Hp _ IH].
  - exists []. by repeat split.
  - apply Forall_cons in Hgood as [Hdep Hgood].
    destruct (IH Hgood) as (bodies & -> & Hscan & Hparse).
    pose proof (parse_dep_line ∅ geese preferredWhy d p Hgeese Hdep) as H0.
    cbv zeta in H0. destruct H0 as (body & Hline & Htext & Hlen & _).
    rewrite Hp in Hline. injection Hline as ->.
    exists (body :: bodies). split; [done|]. split.
    + constructor; [|done]. split; [done|].
      pose proof (chosenWhy_short d p (default "" (preferredWhy !! p)) Hdep).
      pose proof (goodDep_short d p Hdep).
      unfold Text.MaxScanTokenSize. lia.
    + intros m. rewrite parseLines_cons.
      pose proof (parse_dep_line m geese preferredWhy d p Hgeese Hdep) as H1.
      cbv zeta in H1. destruct H1 as (body' & Hline' & _ & _ & Hpl).
      rewrite Hp in Hline'. injection Hline' as Hb.
      apply append_nl_inj in Hb as <-.
      rewrite Hpl. simpl. apply Hparse.
Qed.

Lemma recordHint_lookup preferredWhy d pkgs : ∀ m dep,
  dep ∈ pkgs → importersOf d dep ≠ [] →
  foldl (recordHint preferredWhy d) m pkgs !! dep =
  Some (chosenWhy (importersOf d dep) (default "" (preferredWhy !! dep))).
Proof.
  induction pkgs as [|p pkgs IH] using rev_ind; intros m dep Hin Hne.
  - by apply elem_of_nil in Hin.
  - rewrite foldl_snoc. unfold recordHint at 1.
    destruct (decide (p = dep)) as [->|Hp].
    + destruct (importersOf d dep) eqn:E; [done|]. simpl.
      by rewrite lookup_insert_eq.
    + apply elem_of_app in Hin as [Hin|Hin%list_elem_of_singleton]; [|done].
      destruct (length (importersOf d p) =? 0); [by apply IH|].
      rewrite lookup_insert_ne by done. by apply IH.
Qed.

Lemma mapM_ext_elem {A B} (f g : A → option B) l :
  (∀ x, x ∈ l → f x = g x) → mapM f l = mapM g l.
Proof.
  induction l as [|x l IH]; intros Hfg; [done|]. cbn [mapM].
  rewrite (Hfg x) by by left. rewrite IH; [done|].
  intros y Hy. apply Hfg. by right.
Qed.

Lemma wellNamed_spec pkg geese d :
  wellNamed pkg geese d = true →
  plainName pkg = true ∧ (N.of_nat (String.length pkg) < 20000)%N ∧
  (N.of_nat (length geese) < 20000)%N ∧
  Forall (λ goos, startsPlain goos = true) geese ∧
  Forall (λ dep, goodDep d dep = true) (Deps d).
Proof.
  unfold wellNamed.
  intros [[[[Hp Hs]%goodName_spec Hn%N.ltb_lt]%andb_true_iff Hg]%andb_true_iff
          Hd]%andb_true_iff.
  repeat (split; [done|]).
  rewrite forallb_forall in Hg. rewrite forallb_forall in Hd.
  split; apply Forall_forall; intros x Hx%list_elem_of_In; auto.
Qed.

Lemma render_reads_back pkg geese preferredWhy d buf d' :
  wellNamed pkg geese d = true →
  render pkg geese preferredWhy d = Some (buf, d') →
  ∃ hints,
    parsePreferredWhy buf = Some hints ∧
    (∀ dep, dep ∈ Deps d → importersOf d dep ≠ [] →
       hints !! dep =
       Some (chosenWhy (importersOf d dep) (default "" (preferredWhy !! dep)))) ∧
    fst <$> render pkg geese hints d = Some buf.
Proof.
  intros (Hp & Hps & Hn & Hgeese & Hdeps)%wellNamed_spec Hr.
  assert (fst <$> render pkg geese preferredWhy d = Some buf) as Hbuf
    by by rewrite Hr.
  rewrite render_text, renderLines_lines in Hbuf.
  destruct (mapM (lineOf geese preferredWhy d) (sortDeps (Deps d)))
    as [lines|] eqn:Hlines; [|done].
  injection Hbuf as <-.
  assert (Forall (λ dep, goodDep d dep = true) (sortDeps (Deps d))) as Hsorted
    by by rewrite sortDeps_perm.
  apply mapM_Some in Hlines as HF.
  destruct (dep_lines geese preferredWhy d _ _ Hgeese Hn Hsorted HF)
    as (bodies & -> & Hscan & Hparse).
  set (title := pkg +:+
         " dependencies: (generated by github.com/tailscale/depaware)").
  assert (scannable title) as Htitle.
  { split.
    - unfold title. by rewrite allBytes_app, (plainName_text _ Hp).
    - unfold title, Text.MaxScanTokenSize. rewrite length_append. simpl. lia. }
  assert (Text.scanLines
            (header pkg +:+ joinAll ((λ b, b +:+ Text.nl) <$> bodies)) =
          title :: "" :: bodies) as Hscanned.
  { apply scanLines_scannable.
    - unfold header. rewrite !append_assoc.
      rewrite <- (append_assoc pkg). fold title.
      rewrite (rawLines_line _ _ (proj1 Htitle)), rawLines_nl.
      by rewrite (rawLines_joinAll _ Hscan).
    - constructor; [done|]. constructor; [|done].
      split; [done|]. unfold Text.MaxScanTokenSize. simpl. lia. }
  set (hints := foldl (recordHint preferredWhy d) ∅ (sortDeps (Deps d))).
  exists hints.
  assert (∀ dep, dep ∈ Deps d → importersOf d dep ≠ [] →
            hints !! dep =
            Some (chosenWhy (importersOf d dep)
                    (default "" (preferredWhy !! dep)))) as Hhints.
  { intros dep Hin Hne. apply recordHint_lookup; [|done].
    by rewrite sortDeps_perm. }
  split; [|split; [done|]].
  - unfold parsePreferredWhy. rewrite Hscanned, parseLines_cons.
    unfold title. rewrite (parse_header _ _ Hp).
    change (parseLines ∅ ("" :: bodies) = Some hints).
    rewrite parseLines_cons.
    assert (parseLine ∅ "" = Some ∅) as -> by done.
    apply Hparse.
  - rewrite render_text, renderLines_lines.
    rewrite (mapM_ext_elem _ (lineOf geese preferredWhy d)).
    + by rewrite Hlines.
    + intros dep Hin. rewrite sortDeps_perm in Hin.
      unfold lineOf. destruct (osMarkers d geese dep) as [os|]; [|done].
      simpl. do 2 f_equal. rewrite !whyText_chosen.
      destruct (length (importersOf d dep) =? 0) eqn:E0; [done|].
      assert (importersOf d dep ≠ []) as Hne by (intros E; by rewrite E in E0).
      rewrite (Hhints dep Hin Hne). simpl.
      rewrite chosenWhy_fixed; [done|by apply chosenWhy_in|].
      pose proof (chosenWhy_in (importersOf d dep)
                    (default "" (preferredWhy !! dep)) Hne) as Hc.
      eapply Forall_forall in Hdeps; [|exact Hin].
      unfold goodDep in Hdeps. apply andb_true_iff in Hdeps as [_ Himp].
      rewrite forallb_forall in Himp.
      apply list_elem_of_In, Himp in Hc. unfold goodImporter in Hc.
      apply andb_true_iff in Hc as [[Hpl _]%goodName_spec _].
      intros E. rewrite E in Hpl. done.
Qed.

(** X10: a snapshot reads back.  For a run with fewer than 20000
    targets whose names are well formed (the root, the dependencies and
    their importers: not empty, of printable ASCII bytes without
    spaces, under 20000 bytes, no dependency called "from", no importer
    that ends in '+'; the targets: beginning with such a byte), so that
    every line fits the buffer of the scanner, parsePreferredWhy finds in the rendered snapshot, for every listed
    dependency that has importers, the importer the snapshot names; and
    rendering the same accumulator with the hints read from its own
    snapshot yields the same bytes: an update that follows an update
    changes nothing, and a check that follows an update finds no
    difference. *)
Theorem snapshot_reads_back pkg geese preferredWhy d buf d' :
  wellNamed pkg geese d = true →
  render pkg geese preferredWhy d = Some (buf, d') →
  ∃ hints,
    parsePreferredWhy buf = Some hints ∧
    (∀ dep, dep ∈ Deps d → importersOf d dep ≠ [] →
       ∃ w, hints !! dep = Some w ∧ w ∈ importersOf d dep ∧
            (Why d dep preferredWhy).1 =
              "from " +:+ w +:+
              (if 1 <? length (importersOf d dep) then "+" else "")) ∧
    fst <$> render pkg geese hints d = Some buf.
Proof.
  intros Hwell Hr.
  destruct (render_reads_back _ _ _ _ _ _ Hwell Hr) as (hints & Hp & Hh & Hre).
  exists hints. split; [done|]. split; [|done].
  intros dep Hin Hne. eexists. split; [by apply Hh|].
  split; [by apply chosenWhy_in|].
  rewrite Why_text, whyText_chosen.
  destruct (importersOf d dep); [done|done].
Qed.

Lemma snapshot_reads_back_witness :
  ∃ buf hints,
    fst <$> render "root" ["linux"; "darwin"] Sample.hints
              (Sample.run Sample.twoTargets) = Some buf ∧
    parsePreferredWhy buf = Some hints ∧
    fst <$> render "root" ["linux"; "darwin"] hints
              (Sample.run Sample.twoTargets) = Some buf.
Proof.
  destruct (render "root" ["linux"; "darwin"] Sample.hints
              (Sample.run Sample.twoTargets)) as [[buf d']|] eqn:E;
    [|vm_compute in E; discriminate].
  assert (wellNamed "root" ["linux"; "darwin"] (Sample.run Sample.twoTargets)
          = true) as Hwell by (vm_compute; reflexivity).
  destruct (snapshot_reads_back "root" ["linux"; "darwin"] Sample.hints
              (Sample.run Sample.twoTargets) buf d' Hwell E)
    as (hints & Hp & _ & Hre).
  exists buf, hints. split; [reflexivity|]. split; [exact Hp|exact Hre].
Defined.

(** ** The modes and Main *)

Lemma process_reads_back VendorlessPath internal pkg loads daContents buf :
  wellNamed pkg (fst <$> loads)
    (accumulate VendorlessPath internal pkg loads) = true →
  process VendorlessPath internal pkg loads daContents = Rendered buf →
  process VendorlessPath internal pkg loads (Some buf) = Rendered buf.
Proof.
  intros Hwell. unfold process.
  destruct (negb (foundDir pkg loads)); [done|].
  destruct (match daContents with
            | Some c => parsePreferredWhy c
            | None => Some ∅
            end) as [preferredWhy|]; [|done].
  destruct (render pkg (fst <$> loads) preferredWhy
              (accumulate VendorlessPath internal pkg loads))
    as [[buf0 d']|] eqn:E; [|done].
  intros [= ->].
  destruct (render_reads_back _ _ _ _ _ _ Hwell E) as (hints & -> & _ & Hre).
  destruct (render pkg (fst <$> loads) hints
              (accumulate VendorlessPath internal pkg loads))
    as [[buf1 d1]|]; [|done].
  by injection Hre as ->.
Qed.

(** X11: a check that follows an update passes.  For a run with fewer
    than 20000 targets whose names are well formed, as in X10, when the
    update mode writes a snapshot, a check
    over the same loads that reads this snapshot finds it up to date,
    and a second update writes the same bytes again. *)
Theorem check_after_update_passes VendorlessPath internal pkg loads
    daContents buf :
  wellNamed pkg (fst <$> loads)
    (accumulate VendorlessPath internal pkg loads) = true →
  processRun false true VendorlessPath internal pkg loads daContents =
    Written buf →
  processRun true false VendorlessPath internal pkg loads (Some buf) =
    Unchanged ∧
  processRun false true VendorlessPath internal pkg loads (Some buf) =
    Written buf.
Proof.
  intros Hwell. unfold processRun.
  destruct (process VendorlessPath internal pkg loads daContents)
    as [buf0| |] eqn:E; [|done|done].
  unfold finish at 1. intros [= ->].
  rewrite (process_reads_back _ _ _ _ _ _ Hwell E). unfold finish.
  by rewrite String.eqb_refl.
Qed.

Lemma check_after_update_passes_witness :
  ∃ buf,
    processRun false true GoImports.VendorlessPath false "root"
      Sample.twoTargets None = Written buf ∧
    processRun true false GoImports.VendorlessPath false "root"
      Sample.twoTargets (Some buf) = Unchanged.
Proof.
  destruct (processRun false true GoImports.VendorlessPath false "root"
              Sample.twoTargets None) as [| |buf| | |] eqn:E;
    try (vm_compute in E; discriminate).
  exists buf. split; [reflexivity|].
  refine (proj1 (check_after_update_passes GoImports.VendorlessPath false
                   "root" Sample.twoTargets None buf _ E)).
  vm_compute. reflexivity.
Defined.

Lemma processAll_prefix printing run ipaths :
  processed (processAll printing run ipaths) `prefix_of` ipaths.
Proof.
  induction ipaths as [|pkg rest IH]; [done|]. cbn [processAll].
  unfold processed. cbn [omap list_omap]. fold (processed).
  destruct (stops (run pkg)).
  - by apply prefix_cons, prefix_nil.
  - apply prefix_cons. unfold processed in *. rewrite omap_app.
    by destruct (match rest with [] => false | _ => true end && printing).
Qed.

Lemma processAll_stops printing run ipaths : ∀ i pkg e,
  processAll printing run ipaths !! i = Some (Processed pkg e) →
  stops e = true → length (processAll printing run ipaths) = S i.
Proof.
  induction ipaths as [|p rest IH]; intros i pkg e; [done|].
  cbn [processAll]. destruct (stops (run p)) eqn:Hs.
  - destruct i as [|i]; [done|]. by destruct i.
  - destruct i as [|i]; simpl.
    + intros [= <- <-]. congruence.
    + destruct (match rest with [] => false | _ => true end && printing);
        simpl.
      * destruct i as [|i]; [done|]. simpl. intros Hl He.
        by rewrite (IH _ _ _ Hl He).
      * intros Hl He. by rewrite (IH _ _ _ Hl He).
Qed.

Lemma processAll_all printing run ipaths :
  Forall (λ p, stops (run p) = false) ipaths →
  processed (processAll printing run ipaths) = ipaths.
Proof.
  induction 1 as [|p rest Hp _ IH]; [done|]. cbn [processAll].
  rewrite Hp. unfold processed in *. cbn [omap list_omap].
  rewrite omap_app, IH.
  by destruct (match rest with [] => false | _ => true end && printing).
Qed.

Lemma processAll_quiet run ipaths :
  BlankLine ∉ processAll false run ipaths.
Proof.
  induction ipaths as [|p rest IH]; [apply not_elem_of_nil|].
  cbn [processAll]. rewrite andb_false_r. simpl.
  destruct (stops (run p)).
  - intros [?|?%elem_of_nil]%elem_of_cons; done.
  - intros [?|?]%elem_of_cons; done.
Qed.

(** X12: Main.  With both -check and -update, or with an argument that
    begins with '-', the program aborts before any package is
    processed.  Otherwise the packages are
    processed in the order given, up to the first one whose run ends the
    program (a drift found by the check, a fatal error or a panic):
    nothing follows it; when no run ends the program every package is
    processed.  A blank line between two snapshots is printed only when
    neither -check nor -update is given. *)
Theorem Main_processes_in_order check update ipaths run :
  (check && update = true →
   ∀ resolved, Main check update resolved run = None) ∧
  (Exists (λ p, Bytes.HasPrefix p "-" = true) ipaths →
   Main check update (Some ipaths) run = None) ∧
  (∀ events, Main check update (Some ipaths) run = Some events →
     processed events `prefix_of` ipaths ∧
     (∀ i pkg e, events !! i = Some (Processed pkg e) → stops e = true →
                 length events = S i) ∧
     (Forall (λ p, stops (run p) = false) ipaths →
      processed events = ipaths) ∧
     (check || update = true → BlankLine ∉ events)).
Proof.
  split; [|split].
  - intros Hboth resolved. unfold Main. by rewrite Hboth.
  - intros Hex. unfold Main. destruct (check && update); [done|].
    assert (existsb (λ pkg, Bytes.HasPrefix pkg "-") ipaths = true) as ->;
      [|done].
    apply existsb_exists. apply Exists_exists in Hex as (p & Hin & Hp).
    exists p. split; [by apply list_elem_of_In|done].
  - intros events. unfold Main. destruct (check && update); [done|].
    destruct (existsb _ ipaths); [done|]. intros [= <-].
    split; [apply processAll_prefix|]. split; [apply processAll_stops|].
    split; [apply processAll_all|].
    intros Hmode.
    assert (negb check && negb update = false) as ->
      by by destruct check, update.
    apply processAll_quiet.
Qed.

(** ** The hints of a previous snapshot: line ends, long lines, later lines *)

Lemma inlineByte_spec c :
  inlineByte c = true →
  Ascii.eqb c Text.newline = false ∧ Ascii.eqb c (Utf8.byte 13) = false.
Proof.
  unfold inlineByte. intros [? ?]%andb_true_iff.
  by split; apply negb_true_iff.
Qed.

Lemma rawLines_inline s t :
  allBytes inlineByte s = true →
  Text.rawLines (s +:+ Text.nl +:+ t) = s :: Text.rawLines t.
Proof.
  induction s as [|c s IH]; [done|].
  intros Hall. change (inlineByte c && allBytes inlineByte s = true) in Hall.
  apply andb_true_iff in Hall as [[Hc _]%inlineByte_spec Hs].
  change (String c s +:+ Text.nl +:+ t) with (String c (s +:+ Text.nl +:+ t)).
  by rewrite rawLines_cons, Hc, (IH Hs).
Qed.

Lemma rawLines_inline_cr s t :
  allBytes inlineByte s = true →
  Text.rawLines (s +:+ crlf +:+ t) =
    (s +:+ String (Utf8.byte 13) "") :: Text.rawLines t.
Proof.
  induction s as [|c s IH]; [done|].
  intros Hall. change (inlineByte c && allBytes inlineByte s = true) in Hall.
  apply andb_true_iff in Hall as [[Hc _]%inlineByte_spec Hs].
  change (String c s +:+ crlf +:+ t) with (String c (s +:+ crlf +:+ t)).
  by rewrite rawLines_cons, Hc, (IH Hs).
Qed.

Lemma dropCR_inline s : allBytes inlineByte s = true → Text.dropCR s = s.
Proof.
  induction s as [|c s IH]; [done|].
  intros Hall. change (inlineByte c && allBytes inlineByte s = true) in Hall.
  apply andb_true_iff in Hall as [[_ Hc]%inlineByte_spec Hs].
  destruct s as [|c' s].
  - change (Text.dropCR (String c ""))
      with (if Ascii.eqb c (Utf8.byte 13) then "" else String c "").
    by rewrite Hc.
  - by rewrite dropCR_cons, (IH Hs).
Qed.

Lemma dropCR_snoc s : Text.dropCR (s +:+ String (Utf8.byte 13) "") = s.
Proof.
  induction s as [|c s IH]; [done|].
  change (String c s +:+ String (Utf8.byte 13) "")
    with (String c (s +:+ String (Utf8.byte 13) "")).
  destruct (s +:+ String (Utf8.byte 13) "") as [|c' s'] eqn:E.
  - by destruct s.
  - by rewrite dropCR_cons, IH.
Qed.

Lemma wholeLine_spec l :
  wholeLine l = true →
  allBytes inlineByte l = true ∧
  (N.of_nat (String.length l) + 1 < Text.MaxScanTokenSize)%N.
Proof. unfold wholeLine. by intros [? ?%N.ltb_lt]%andb_true_iff. Qed.

Lemma rawLines_unlines lines t :
  Forall (λ l, wholeLine l = true) lines →
  Text.rawLines (unlines Text.nl lines +:+ t) = lines ++ Text.rawLines t.
Proof.
  unfold unlines. induction 1 as [|l lines [Hl _]%wholeLine_spec _ IH];
    [done|].
  rewrite fmap_cons. cbn [joinAll]. rewrite !append_assoc.
  by rewrite (rawLines_inline _ _ Hl), IH.
Qed.

Lemma rawLines_unlines_cr lines :
  Forall (λ l, wholeLine l = true) lines →
  Text.rawLines (unlines crlf lines) =
    (λ l, l +:+ String (Utf8.byte 13) "") <$> lines.
Proof.
  unfold unlines. induction 1 as [|l lines [Hl _]%wholeLine_spec _ IH];
    [done|].
  rewrite !fmap_cons. cbn [joinAll]. rewrite append_assoc.
  by rewrite (rawLines_inline_cr _ _ Hl), IH.
Qed.

Lemma takeWhile_app_stop {A} (f : A → bool) l x l' :
  f x = false → Text.takeWhile f (l ++ x :: l') = Text.takeWhile f l.
Proof.
  intros Hx. induction l as [|y l IH]; simpl; [by rewrite Hx|].
  destruct (f y); [by rewrite IH|done].
Qed.

Lemma scanLines_unlines lines :
  Forall (λ l, wholeLine l = true) lines →
  Text.scanLines (unlines Text.nl lines) = lines.
Proof.
  intros Hall. unfold Text.scanLines.
  rewrite <- (append_nil_r (unlines Text.nl lines)).
  rewrite (rawLines_unlines _ _ Hall). simpl. rewrite app_nil_r.
  rewrite takeWhile_all.
  - induction Hall as [|l lines [Hl _]%wholeLine_spec _ IH]; [done|].
    by rewrite fmap_cons, IH, (dropCR_inline _ Hl).
  - eapply Forall_impl; [exact Hall|]. intros l [_ Hlen]%wholeLine_spec.
    apply N.ltb_lt. lia.
Qed.

(** X15: line ends.  For lines of at most 65534 bytes without a
    carriage return or a line feed among them, so that a line and its
    line end fit the buffer of the scanner: the scanner returns the
    lines of a previous snapshot that end in a carriage return and a
    line feed without their line ends, and such a snapshot gives the
    same hints as the same lines ending in a line feed alone. *)
Theorem crlf_snapshot_same_hints lines :
  Forall (λ l, wholeLine l = true) lines →
  Text.scanLines (unlines crlf lines) = lines ∧
  parsePreferredWhy (unlines crlf lines) =
    parsePreferredWhy (unlines Text.nl lines).
Proof.
  intros Hall.
  assert (Text.scanLines (unlines crlf lines) = lines) as Hcr.
  { unfold Text.scanLines. rewrite (rawLines_unlines_cr _ Hall).
    rewrite takeWhile_all.
    - rewrite <- list_fmap_compose.
      clear. induction lines as [|l lines IH]; [done|].
      rewrite fmap_cons, IH. simpl. by rewrite dropCR_snoc.
    - apply Forall_fmap. eapply Forall_impl; [exact Hall|].
      intros l [_ Hlen]%wholeLine_spec. simpl. apply N.ltb_lt.
      rewrite length_append. simpl. lia. }
  split; [done|]. unfold parsePreferredWhy.
  by rewrite Hcr, (scanLines_unlines _ Hall).
Qed.

Lemma crlf_snapshot_same_hints_witness :
  parsePreferredWhy
    (unlines crlf ["encoding from encoding/json";
                   "encoding/binary from encoding/base64+"]) =
  Some {["encoding" := "encoding/json";
         "encoding/binary" := "encoding/base64"]} ∧
  parsePreferredWhy
    (unlines crlf ["encoding from encoding/json";
                   "encoding/binary from encoding/base64+"]) =
  parsePreferredWhy
    (unlines Text.nl ["encoding from encoding/json";
                      "encoding/binary from encoding/base64+"]).
Proof.
  split; [vm_compute; reflexivity|].
  apply (crlf_snapshot_same_hints ["encoding from encoding/json";
                                   "encoding/binary from encoding/base64+"]).
  repeat constructor.
Defined.

(** X14: a line too long for the scanner.  A line of 65536 bytes or more
    ends the scan without a word: the hints of the lines before it are
    kept, and whatever follows it is not read. *)
Theorem long_line_ends_the_scan lines long rest :
  Forall (λ l, wholeLine l = true) lines →
  allBytes inlineByte long = true →
  (Text.MaxScanTokenSize ≤ N.of_nat (String.length long))%N →
  parsePreferredWhy (unlines Text.nl lines +:+ long +:+ Text.nl +:+ rest) =
  parsePreferredWhy (unlines Text.nl lines).
Proof.
  intros Hall Hlong Hlen. unfold parsePreferredWhy. f_equal.
  rewrite (scanLines_unlines _ Hall). unfold Text.scanLines.
  rewrite (rawLines_unlines _ _ Hall), (rawLines_inline _ _ Hlong).
  rewrite takeWhile_app_stop by (apply N.ltb_ge; lia).
  rewrite takeWhile_all.
  - clear -Hall. induction Hall as [|l lines [Hl _]%wholeLine_spec _ IH];
      [done|].
    by rewrite fmap_cons, IH, (dropCR_inline _ Hl).
  - eapply Forall_impl; [exact Hall|]. intros l [_ Hl]%wholeLine_spec.
    apply N.ltb_lt. lia.
Qed.

Lemma long_line_ends_the_scan_witness :
  parsePreferredWhy
    (unlines Text.nl ["a from b"] +:+ Text.spaces (N.to_nat 65536) +:+
     Text.nl +:+ "c from d") =
  parsePreferredWhy (unlines Text.nl ["a from b"]).
Proof.
  apply (long_line_ends_the_scan ["a from b"] (Text.spaces (N.to_nat 65536))
           "c from d").
  - repeat constructor.
  - vm_compute. reflexivity.
  - vm_compute. discriminate.
Defined.

Lemma parseLines_snoc lines : ∀ m line,
  parseLines m (lines ++ [line]) =
  parseLines m lines ≫= λ m', parseLine m' line.
Proof.
  induction lines as [|l lines IH]; intros m line.
  - simpl. by destruct (parseLine m line).
  - change (parseLines m (l :: (lines ++ [line])) =
            parseLines m (l :: lines) ≫= λ m', parseLine m' line).
    rewrite !parseLines_cons. destruct (parseLine m l) as [m1|]; [|done].
    simpl. apply IH.
Qed.

(** X16: the later line wins.  In a previous snapshot all of whose
    lines have at most 65534 bytes, none of them a carriage return or a
    line feed, so that the scanner reaches the last line: when the last
    line names an importer for a dependency, that importer is the hint,
    whichever importer earlier lines name for the dependency; the hints
    of all other dependencies are those of the earlier lines. *)
Theorem later_hint_wins lines line before dep src after :
  Forall (λ l, wholeLine l = true) (lines ++ [line]) →
  Text.Fields line = before ++ [dep; "from"; src] ++ after →
  "from" ∉ before → dep ≠ "from" →
  ∃ earlier hints,
    parsePreferredWhy (unlines Text.nl lines) = Some earlier ∧
    parsePreferredWhy (unlines Text.nl (lines ++ [line])) = Some hints ∧
    hints !! dep = Some (Bytes.TrimRight src "+") ∧
    ∀ other, other ≠ dep → hints !! other = earlier !! other.
Proof.
  intros Hall HF Hb Hd.
  assert (Forall (λ l, wholeLine l = true) lines) as Hlines
    by by apply Forall_app in Hall as [? _].
  unfold parsePreferredWhy.
  rewrite (scanLines_unlines _ Hall), (scanLines_unlines _ Hlines).
  rewrite parseLines_snoc.
  destruct (parseLines_is_Some lines ∅) as [earlier ->]. simpl.
  rewrite (parseLine_contributes _ _ _ _ _ _ HF Hb Hd).
  eexists _, _. split; [done|]. split; [done|].
  split; [apply lookup_insert_eq|].
  intros other Hne. by apply lookup_insert_ne.
Qed.

Lemma later_hint_wins_witness :
  parsePreferredWhy (unlines Text.nl ["x from a"; "y from b"; "x from c+"]) =
    Some {["x" := "c"; "y" := "b"]} ∧
  ∃ earlier hints,
    parsePreferredWhy (unlines Text.nl ["x from a"; "y from b"]) =
      Some earlier ∧
    parsePreferredWhy
      (unlines Text.nl (["x from a"; "y from b"] ++ ["x from c+"])) =
      Some hints ∧
    hints !! "x" = Some (Bytes.TrimRight "c+" "+") ∧
    ∀ other, other ≠ "x" → hints !! other = earlier !! other.
Proof.
  split; [vm_compute; reflexivity|].
  apply (later_hint_wins ["x from a"; "y from b"] "x from c+" [] "x" "c+" []).
  - repeat constructor.
  - reflexivity.
  - apply not_elem_of_nil.
  - discriminate.
Defined.

(** ** Which packages count as internal *)

Lemma Contains_cons c s sub :
  Bytes.Contains (String c s) sub =
  Bytes.HasPrefix (String c s) sub || Bytes.Contains s sub.
Proof. done. Qed.

(** X13: packages outside the Go tree.  A package that is no Go package
    (its path has a '.' and does not contain "golang.org/x") counts as
    internal only when its path begins with "internal/" or
    "runtime/internal/": a directory "internal" further down its path
    does not hide it from the list.  A Go package is internal as soon as
    its path contains "/internal/". *)
Theorem internal_by_prefix_outside_go pkg :
  (isGoPackage pkg = false →
   isInternalPackage pkg =
     Bytes.HasPrefix pkg "internal/" || Bytes.HasPrefix pkg "runtime/internal/") ∧
  (isGoPackage pkg = true → Bytes.Contains pkg "/internal/" = true →
   isInternalPackage pkg = true).
Proof.
  split.
  - intros Hgo. unfold isInternalPackage. rewrite Hgo, andb_false_r, orb_false_r.
    assert (Bytes.Contains pkg "." = true) as Hdot.
    { unfold isGoPackage in Hgo. apply orb_false_iff in Hgo as [H _].
      by apply negb_false_iff in H. }
    assert (String.eqb pkg "runtime" = false ∧
            String.eqb pkg "runtime/cgo" = false ∧
            String.eqb pkg "unsafe" = false) as (-> & -> & ->).
    { repeat split; apply String.eqb_neq; intros ->; vm_compute in Hdot;
        done. }
    by rewrite !orb_false_r.
  - intros Hgo Hc. unfold isInternalPackage. rewrite Hgo, Hc.
    simpl. apply orb_true_r.
Qed.

Lemma internal_by_prefix_outside_go_witness :
  isInternalPackage "github.com/a/internal/b" = false ∧
  isInternalPackage "golang.org/x/net/internal/socks" = true ∧
  isInternalPackage "net/http/internal" = false.
Proof.
  split; [|split; [|vm_compute; reflexivity]].
  - rewrite (proj1 (internal_by_prefix_outside_go "github.com/a/internal/b"));
      vm_compute; reflexivity.
  - apply (proj2 (internal_by_prefix_outside_go
                    "golang.org/x/net/internal/socks"));
      vm_compute; reflexivity.
Defined.

(** ** Hints that are never read, and the columns of a line *)

(** X17: only the hints of listed dependencies matter.  Two sets of
    hints that agree on every listed dependency that has importers give
    the same snapshot; what a previous snapshot says about any other
    package is never looked at. *)
Theorem hints_of_unlisted_ignored pkg geese hints1 hints2 d :
  (∀ dep, dep ∈ Deps d → importersOf d dep ≠ [] →
          hints1 !! dep = hints2 !! dep) →
  fst <$> render pkg geese hints1 d = fst <$> render pkg geese hints2 d.
Proof.
  intros Hagree. rewrite !render_text, !renderLines_lines. f_equal.
  apply mapM_ext_elem. intros dep Hin. rewrite sortDeps_perm in Hin.
  unfold lineOf. destruct (osMarkers d geese dep) as [os|]; [|done].
  simpl. do 2 f_equal.
  destruct (importersOf d dep) as [|w ws] eqn:E; [done|].
  rewrite <- E. rewrite (Hagree dep Hin); [done|]. by rewrite E.
Qed.

Lemma hints_of_unlisted_ignored_witness :
  fst <$> render "root" ["linux"; "darwin"]
            (<["gone.org/pkg" := "root"]> Sample.hints)
            (Sample.run Sample.twoTargets) =
  fst <$> render "root" ["linux"; "darwin"] Sample.hints
            (Sample.run Sample.twoTargets).
Proof.
  apply (hints_of_unlisted_ignored "root" ["linux"; "darwin"]
           (<["gone.org/pkg" := "root"]> Sample.hints) Sample.hints
           (Sample.run Sample.twoTargets)).
  intros dep Hin _. apply lookup_insert_ne. intros <-.
  apply stringsContains_elem in Hin. vm_compute in Hin. discriminate.
Defined.

(** X18: the columns of a line.  With at most three targets and an
    identity of at most sixty bytes (names as in X10), the identity
    begins at byte 8 of its line and the attribution at byte 69: the
    columns of all such lines are aligned.  A longer identity is never
    cut: it moves the attribution to the right. *)
Theorem line_columns geese preferredWhy d dep :
  Forall (λ goos, startsPlain goos = true) geese →
  plainName dep = true →
  ∃ fields,
    lineOf geese preferredWhy d dep =
      Some (fields +:+ dep +:+
            Text.spaces (60 - String.length dep) +:+ " " +:+
            (Why d dep preferredWhy).1 +:+ Text.nl) ∧
    (length geese ≤ 3 → String.length fields = 8) ∧
    (length geese ≤ 3 → String.length dep ≤ 60 →
     String.length (fields +:+ dep +:+ Text.spaces (60 - String.length dep)
                    +:+ " ") = 69).
Proof.
  intros Hgeese Hdep.
  destruct (osMarkers_plain d geese dep Hgeese) as (os & Hos & Hup & Hlen).
  assert (allBytes textByte os = true) as Hostext.
  { eapply allBytes_impl; [|exact Hup].
    intros c Hc. by apply plainByte_text, upperByte_plain. }
  exists (" " +:+ Text.padLeft 3 os +:+ " " +:+ unsafeIcon d dep +:+
          cgoIcon d dep +:+ " ").
  assert (String.length (unsafeIcon d dep) = 1 ∧
          String.length (cgoIcon d dep) = 1) as [HU HC].
  { destruct (icons_cases d dep) as [[-> | ->] [-> | ->]]; done. }
  split; [|split].
  - unfold lineOf. rewrite Hos. simpl. unfold formatLine, Text.padRight.
    rewrite (RuneCount_text _ (plainName_text _ Hdep)), Why_text.
    by rewrite !append_assoc.
  - intros Hn. unfold Text.padLeft.
    rewrite !length_append, length_spaces, (RuneCount_text _ Hostext), HU, HC.
    simpl. lia.
  - intros Hn Hd. unfold Text.padLeft.
    rewrite !length_append, !length_spaces, (RuneCount_text _ Hostext), HU, HC.
    simpl. lia.
Qed.

Lemma line_columns_witness :
  ∃ fields,
    lineOf ["linux"; "darwin"] ∅ (Sample.run Sample.twoTargets)
      "encoding/binary" =
      Some (fields +:+ "encoding/binary" +:+
            Text.spaces (60 - String.length "encoding/binary") +:+ " " +:+
            (Why (Sample.run Sample.twoTargets) "encoding/binary" ∅).1 +:+
            Text.nl) ∧
    String.length fields = 8.
Proof.
  destruct (line_columns ["linux"; "darwin"] ∅ (Sample.run Sample.twoTargets)
              "encoding/binary") as (fields & Hline & Hf & _).
  - repeat constructor.
  - reflexivity.
  - exists fields. split; [exact Hline|]. apply Hf. simpl. lia.
Defined.
